(** * Supervision of the local agent server

    A shallow embedding of [_stream_output], of the context manager
    [ManagedAPIServer] and of the wait for silence in the body of the
    script, from
    [examples/02_remote_agent_server_cn/01_convo_with_local_agent_server.py].

    The Python code is effectful: it spawns a child process, reads its pipes,
    sleeps, and talks HTTP.  The embedding threads an explicit [World]
    through a small state-and-exception monad.  Everything the operating
    system and the network decide (whether the child can be launched, how
    long it lives, how it reacts to signals, what the health endpoint answers
    and after how long, which I/O calls fail) is data stored in the [World],
    so every definition below computes.

    Durations are counted in milliseconds: [time.sleep(1)] is [sleep 1000],
    [wait(timeout=5)] is [wait _ (Some 5000)], [time.sleep(0.5)] is
    [sleep 500], [timeout=1.0] is [1000], and the [2.0] and [0.1] seconds of
    the wait for silence are [2000] and [100]. *)

From stdpp Require Import gmap strings list pretty.

Open Scope string_scope.
Open Scope list_scope.

(** ** Python outcomes *)

(** The exceptions that occur in the code.  All of them derive from
    [Exception]; asynchronous [BaseException]s are outside the model. *)
Inductive Exn :=
| RuntimeError (msg : string)
| TimeoutExpired (timeout : N)
| LibraryError (msg : string).

(** [str(e)] *)
Definition str_exn (e : Exn) : string :=
  match e with
  | RuntimeError m => m
  | TimeoutExpired t => "timed out after " +:+ pretty t +:+ " milliseconds"
  | LibraryError m => m
  end.

Definition is_TimeoutExpired (e : Exn) : bool :=
  match e with TimeoutExpired _ => true | _ => false end.

(** A call returns a value, raises, or blocks for ever. *)
Inductive Outcome (A : Type) :=
| Return (a : A)
| Raise (e : Exn)
| Block.
Arguments Return {A} a.
Arguments Raise {A} e.
Arguments Block {A}.

(** State that survives a raise: Python mutations are not rolled back. *)
Definition M (S A : Type) : Type := S → Outcome A * S.

#[global] Instance M_ret {S} : MRet (M S) := λ A a s, (Return a, s).

#[global] Instance M_bind {S} : MBind (M S) := λ A B f m s,
  match m s with
  | (Return a, s') => f a s'
  | (Raise e, s') => (Raise e, s')
  | (Block, s') => (Block, s')
  end.

Definition raise {S A} (e : Exn) : M S A := λ s, (Raise e, s).

Definition block {S A} : M S A := λ s, (Block, s).

(** [try: body  except <exceptions accepted by catches> as e: handler e] *)
Definition try_except {S A} (body : M S A) (catches : Exn → bool)
    (handler : Exn → M S A) : M S A := λ s,
  match body s with
  | (Raise e, s') => if catches e then handler e s' else (Raise e, s')
  | r => r
  end.

(** [try: body  finally: cleanup].  An exception raised by [cleanup]
    replaces the outcome of [body]. *)
Definition try_finally {S A} (body : M S A) (cleanup : M S unit) : M S A := λ s,
  match body s with
  | (r, s') =>
    match cleanup s' with
    | (Return _, s'') => (r, s'')
    | (Raise e, s'') => (Raise e, s'')
    | (Block, s'') => (Block, s'')
    end
  end.

Definition gets {S A} (f : S → A) : M S A := λ s, (Return (f s), s).

Definition modify {S} (f : S → S) : M S unit := λ s, (Return (), f s).

(** [except Exception] *)
Definition any_Exception (e : Exn) : bool := true.

(** ** The world outside the interpreter *)

(** The two standard streams of the parent. *)
Inductive Fd := Stdout | Stderr.

(** What a text stream of the parent has received. *)
Inductive SinkOp :=
| Write (text : string)
| Flush
| Print (text : string).

(** [faults] scripts the results of the coming calls on the stream, the
    [write] and [flush] of a forwarding task and its [print(..., file=...)]:
    [Some e] makes the call raise [e]; when the script is used up every call
    succeeds.  The prints of [__enter__] and [__exit__] are taken to reach
    [sys.stdout]: they are no part of the script. *)
Record Sink := mkSink {
  received : list SinkOp;
  faults : list (option Exn)
}.

(** What one [readline] call on a child pipe yields. *)
Inductive ReadResult :=
| Line (text : string)
| ReadFault (e : Exn).

(** The read end of a pipe.  [incoming] scripts the coming [readline]
    calls; once it is used up the pipe is at end-of-file and [readline]
    returns the empty string. *)
Record Pipe := mkPipe {
  incoming : list ReadResult;
  closed : bool
}.

(** How a child behaves; durations are relative, in milliseconds. *)
Record Behaviour := mkBehaviour {
  lifetime : option (N * Z);     (* exits by itself after so long, with this code *)
  on_sigterm : option (N * Z);   (* exits so long after SIGTERM; [None]: ignores it *)
  on_sigkill : N;                (* is gone so long after SIGKILL *)
  out_script : list ReadResult;  (* what it writes to its stdout *)
  err_script : list ReadResult   (* what it writes to its stderr *)
}.

Record Proc := mkProc {
  argv : list string;
  penv : gmap string string;
  behaviour : Behaviour;
  death : option (N * Z)         (* absolute time of its end, and return code *)
}.

(** The object [subprocess.Popen] returns. *)
Record Popen := mkPopen {
  pid : nat;
  p_stdout : nat;
  p_stderr : nat
}.

Inductive Response :=
| Status (code : Z)
| Failure (e : Exn).

(** A reply of the network to one request, and the time it takes. *)
Record Reply := mkReply {
  response : Response;
  took : N
}.

(** [threading.Thread(target=_stream_output, args=(stream, prefix, target), daemon=...)] *)
Record Thread := mkThread {
  t_stream : nat;
  t_prefix : string;
  t_target : Fd;
  daemon : bool
}.

Inductive Event :=
| EvPopen (p : Popen) (args : list string) (env : gmap string string)
| EvThreadStart (t : Thread)
| EvGet (url : string) (timeout : N) (r : Response)
| EvPoll (p : nat) (rc : option Z)
| EvSleep (d : N)
| EvTerminate (p : nat)
| EvKill (p : nat)
| EvWait (p : nat) (timeout : option N) (rc : option Z).

Record World := mkWorld {
  clock : N;
  environ : gmap string string;  (* os.environ *)
  net : nat → Reply;             (* the reply to the i-th request *)
  spawns : nat → Behaviour;      (* the behaviour of the i-th child *)
  launch_fault : nat → option string;
                                 (* [Some msg]: the i-th child cannot be launched *)
  requests : nat;
  procs : list Proc;
  pipes : list Pipe;
  threads : list Thread;
  sys_stdout : Sink;
  sys_stderr : Sink;
  trace : list (N * Event)       (* system calls, with the time of the call *)
}.

Definition set_clock (t : N) (w : World) : World :=
  mkWorld t (environ w) (net w) (spawns w) (launch_fault w) (requests w) (procs w) (pipes w)
          (threads w) (sys_stdout w) (sys_stderr w) (trace w).

Definition set_requests (n : nat) (w : World) : World :=
  mkWorld (clock w) (environ w) (net w) (spawns w) (launch_fault w) n (procs w) (pipes w)
          (threads w) (sys_stdout w) (sys_stderr w) (trace w).


Definition set_procs (ps : list Proc) (w : World) : World :=
  mkWorld (clock w) (environ w) (net w) (spawns w) (launch_fault w) (requests w) ps (pipes w)
          (threads w) (sys_stdout w) (sys_stderr w) (trace w).

Definition set_pipes (ps : list Pipe) (w : World) : World :=
  mkWorld (clock w) (environ w) (net w) (spawns w) (launch_fault w) (requests w) (procs w) ps
          (threads w) (sys_stdout w) (sys_stderr w) (trace w).

Definition set_threads (ts : list Thread) (w : World) : World :=
  mkWorld (clock w) (environ w) (net w) (spawns w) (launch_fault w) (requests w) (procs w) (pipes w)
          ts (sys_stdout w) (sys_stderr w) (trace w).

Definition set_trace (tr : list (N * Event)) (w : World) : World :=
  mkWorld (clock w) (environ w) (net w) (spawns w) (launch_fault w) (requests w) (procs w) (pipes w)
          (threads w) (sys_stdout w) (sys_stderr w) tr.

Definition sink (fd : Fd) (w : World) : Sink :=
  match fd with Stdout => sys_stdout w | Stderr => sys_stderr w end.

Definition set_sink (fd : Fd) (s : Sink) (w : World) : World :=
  match fd with
  | Stdout =>
    mkWorld (clock w) (environ w) (net w) (spawns w) (launch_fault w) (requests w) (procs w) (pipes w)
            (threads w) s (sys_stderr w) (trace w)
  | Stderr =>
    mkWorld (clock w) (environ w) (net w) (spawns w) (launch_fault w) (requests w) (procs w) (pipes w)
            (threads w) (sys_stdout w) s (trace w)
  end.

Definition emit (ev : Event) : M World unit :=
  modify (λ w, set_trace (trace w ++ [(clock w, ev)]) w).

Definition advance (d : N) : M World unit :=
  modify (λ w, set_clock (clock w + d)%N w).

(** *** Text streams *)

(** [print(text)] in [__enter__] and [__exit__], which goes to [sys.stdout]
    ([fd] names the stream that receives the text) *)
Definition print (fd : Fd) (text : string) : M World unit :=
  modify (λ w, set_sink fd (mkSink (received (sink fd w) ++ [Print text])
                                   (faults (sink fd w))) w).

(** One call on [fd] that the script rules: consumes the head of the script. *)
Definition sink_call (fd : Fd) (op : SinkOp) : M World unit := λ w,
  let s := sink fd w in
  match faults s with
  | Some e :: rest => (Raise e, set_sink fd (mkSink (received s) rest) w)
  | None :: rest => (Return (), set_sink fd (mkSink (received s ++ [op]) rest) w)
  | [] => (Return (), set_sink fd (mkSink (received s ++ [op]) []) w)
  end.

Definition write (fd : Fd) (text : string) : M World unit := sink_call fd (Write text).

Definition flush (fd : Fd) : M World unit := sink_call fd Flush.

(** [print(text, file=fd)] in a forwarding task: a call on [fd] like the
    others, which raises when the stream does. *)
Definition print_file (fd : Fd) (text : string) : M World unit :=
  sink_call fd (Print text).

(** [stream.readline()] on pipe number [i] *)
Definition readline (i : nat) : M World string := λ w,
  match pipes w !! i with
  | None => (Raise (LibraryError "bad file descriptor"), w)
  | Some p =>
    if closed p then (Raise (LibraryError "I/O operation on closed file"), w)
    else
      match incoming p with
      | [] => (Return "", w)
      | Line l :: rest => (Return l, set_pipes (<[i := mkPipe rest false]> (pipes w)) w)
      | ReadFault e :: rest => (Raise e, set_pipes (<[i := mkPipe rest false]> (pipes w)) w)
      end
  end.

(** [stream.close()] *)
Definition close (i : nat) : M World unit :=
  modify (λ w,
    match pipes w !! i with
    | None => w
    | Some p => set_pipes (<[i := mkPipe (incoming p) true]> (pipes w)) w
    end).

(** *** Processes *)

(** The return code [poll] would see for process [p] at time [t]. *)
Definition returncode_at (w : World) (p : nat) (t : N) : option Z :=
  match procs w !! p with
  | Some pr =>
    match death pr with
    | Some (d, rc) => if (d <=? t)%N then Some rc else None
    | None => None
    end
  | None => None
  end.

Definition returncode (w : World) (p : nat) : option Z := returncode_at w p (clock w).

(** The process exists and has not ended yet. *)
Definition alive (w : World) (p : nat) : bool :=
  match procs w !! p with
  | Some pr =>
    match death pr with
    | Some (d, _) => (clock w <? d)%N
    | None => true
    end
  | None => false
  end.

(** A signal can only bring the end forward. *)
Definition sooner (d : option (N * Z)) (t : N) (rc : Z) : option (N * Z) :=
  match d with
  | Some (t0, rc0) => if (t0 <=? t)%N then Some (t0, rc0) else Some (t, rc)
  | None => Some (t, rc)
  end.

Definition signal (p : nat) (effect : Behaviour → option (N * Z)) : M World unit :=
  modify (λ w,
    match procs w !! p with
    | Some pr =>
      match effect (behaviour pr) with
      | Some (d, rc) =>
        set_procs (<[p := mkProc (argv pr) (penv pr) (behaviour pr)
                                 (sooner (death pr) (clock w + d)%N rc)]> (procs w)) w
      | None => w
      end
    | None => w
    end).

(** [subprocess.Popen(args, stdout=PIPE, stderr=PIPE, text=True, env=env)].
    When the program cannot be launched the call raises (an [OSError] such
    as [FileNotFoundError]) and there is no child and no pipe.  The event
    records the call; its handle is the one the call returns when it
    succeeds. *)
Definition popen (args : list string) (env : gmap string string) : M World Popen := λ w,
  let b := spawns w (length (procs w)) in
  let p := mkPopen (length (procs w)) (length (pipes w)) (S (length (pipes w))) in
  let pr := mkProc args env b
              (match lifetime b with
               | Some (d, rc) => Some ((clock w + d)%N, rc)
               | None => None
               end) in
  match launch_fault w (length (procs w)) with
  | Some msg => (emit (EvPopen p args env);; raise (LibraryError msg)) w
  | None =>
    (emit (EvPopen p args env);; mret p)
      (set_pipes (pipes w ++ [mkPipe (out_script b) false; mkPipe (err_script b) false])
        (set_procs (procs w ++ [pr]) w))
  end.

(** [process.poll()] *)
Definition poll (p : Popen) : M World (option Z) :=
  rc ← gets (λ w, returncode w (pid p));
  emit (EvPoll (pid p) rc);;
  mret rc.

(** [process.terminate()]: SIGTERM *)
Definition terminate (p : Popen) : M World unit :=
  emit (EvTerminate (pid p));;
  signal (pid p) on_sigterm.

(** [process.kill()]: SIGKILL, which no process can ignore *)
Definition kill (p : Popen) : M World unit :=
  emit (EvKill (pid p));;
  signal (pid p) (λ b, Some (on_sigkill b, (-9)%Z)).

(** [process.wait(timeout)]: returns the code once the child has ended,
    raises [TimeoutExpired] when the timeout passes first, and without a
    timeout never returns when the child never ends. *)
Definition wait (p : Popen) (timeout : option N) : M World Z := λ w,
  let ending :=
    match procs w !! pid p with
    | Some pr => death pr
    | None => None
    end in
  match ending, timeout with
  | Some (d, rc), None =>
    (emit (EvWait (pid p) timeout (Some rc));;
     modify (set_clock (N.max (clock w) d));;
     mret rc) w
  | Some (d, rc), Some t =>
    if (d <=? clock w + t)%N then
      (emit (EvWait (pid p) timeout (Some rc));;
       modify (set_clock (N.max (clock w) d));;
       mret rc) w
    else
      (emit (EvWait (pid p) timeout None);;
       advance t;;
       raise (TimeoutExpired t)) w
  | None, Some t =>
    (emit (EvWait (pid p) timeout None);;
     advance t;;
     raise (TimeoutExpired t)) w
  | None, None => (emit (EvWait (pid p) timeout None);; block) w
  end.

(** [time.sleep(d)] *)
Definition sleep (d : N) : M World unit :=
  emit (EvSleep d);;
  advance d.

(** [httpx.get(url, timeout=timeout).status_code].  The timeout bounds each
    network operation of the request (connect, read, write), not the request
    as a whole: how long the request takes, and whether it ends in a status
    or in an error (a timeout among them), is the reply of the network. *)
Definition httpx_get (url : string) (timeout : N) : M World Z := λ w,
  let r := net w (requests w) in
  let w1 := set_requests (S (requests w)) w in
  match response r with
  | Status c => (emit (EvGet url timeout (Status c));; advance (took r);; mret c) w1
  | Failure e => (emit (EvGet url timeout (Failure e));; advance (took r);; raise e) w1
  end.

(** [thread.start()]: the thread is registered as started.  What it does
    from then on is [run_thread], a run of its own on the world the threads
    share; the calls of [__enter__] and [__exit__] are described without the
    steps of the forwarders in between. *)
Definition thread_start (t : Thread) : M World unit :=
  emit (EvThreadStart t);;
  modify (λ w, set_threads (threads w ++ [t]) w).

(** ** The forwarding task *)

(** [for line in iter(stream.readline, ""): if line: write; flush]:
    the loop ends when [readline] returns the empty string.  The pipe holds
    finitely many results, so [fuel] bounds the number of rounds. *)
Fixpoint forward_lines (fuel : nat) (stream : nat) (prefix : string) (target_stream : Fd)
    : M World unit :=
  match fuel with
  | 0 => block
  | S fuel' =>
    line ← readline stream;
    if decide (line = "") then mret ()
    else
      (if decide (line ≠ "") then
         write target_stream ("[" +:+ prefix +:+ "] " +:+ line);;
         flush target_stream
       else mret ());;
      forward_lines fuel' stream prefix target_stream
  end.

Definition pending (stream : nat) (w : World) : nat :=
  match pipes w !! stream with
  | Some p => length (incoming p)
  | None => 0
  end.

Definition _stream_output (stream : nat) (prefix : string) (target_stream : Fd)
    : M World unit :=
  try_finally
    (try_except
       (n ← gets (pending stream);
        forward_lines (S n) stream prefix target_stream)
       any_Exception
       (λ e, print_file Stderr ("转发 " +:+ prefix +:+ " 输出时出错: " +:+ str_exn e)))
    (close stream).

(** ** The context manager *)

Module ManagedAPIServer.

Record t := mk {
  port : Z;
  host : string;
  process : option Popen;
  base_url : string;
  stdout_thread : option Thread;
  stderr_thread : option Thread
}.

Definition set_process (p : option Popen) (self : t) : t :=
  mk (port self) (host self) p (base_url self) (stdout_thread self) (stderr_thread self).

Definition set_stdout_thread (th : option Thread) (self : t) : t :=
  mk (port self) (host self) (process self) (base_url self) th (stderr_thread self).

Definition set_stderr_thread (th : option Thread) (self : t) : t :=
  mk (port self) (host self) (process self) (base_url self) (stdout_thread self) th.

(** A method runs on the world and on the object it is called on. *)
Abbreviation Method := (M (World * t)).

(** A system call made from a method. *)
Definition sys {A} (m : M World A) : Method A := λ '(w, self),
  match m w with (r, w') => (r, (w', self)) end.

Definition self_ : Method t := gets snd.

Definition update (f : t → t) : Method unit := modify (λ '(w, self), (w, f self)).

Definition default_port : Z := 8000.
Definition default_host : string := "127.0.0.1".

Definition __init__ (port : Z) (host : string) : t :=
  mk port host None ("http://" +:+ host +:+ ":" +:+ pretty port) None None.

(** [{**d1, **d2}]: the bindings of [d2] replace those of [d1]. *)
Definition dict_merge (d1 d2 : gmap string string) : gmap string string := d2 ∪ d1.

Definition max_retries : nat := 30.

Definition exited_early : Exn :=
  RuntimeError ("服务器进程意外终止。" +:+ "请查看上方服务器日志以获取详细信息。").

Definition not_started (retries : nat) : Exn :=
  RuntimeError ("服务器在 " +:+ pretty retries +:+ " 秒后仍未启动").

(** [for _ in range(attempts)]: [Some self] when the body returned. *)
Fixpoint wait_until_ready (attempts : nat) : Method (option t) :=
  match attempts with
  | 0 => mret None
  | S attempts' =>
    self ← self_;
    ready ← try_except
      (code ← sys (httpx_get (base_url self +:+ "/health") 1000);
       if decide (code = 200%Z) then
         sys (print Stdout ("API 服务器已在 " +:+ base_url self +:+ " 就绪"));;
         mret (Some self)
       else mret None)
      any_Exception
      (λ _, mret None);
    match ready with
    | Some self => mret (Some self)
    | None =>
      match process self with
      | None => raise (LibraryError "'NoneType' object has no attribute 'poll'")
      | Some p =>
        rc ← sys (poll p);
        match rc with
        | Some _ => raise exited_early
        | None => sys (sleep 1000);; wait_until_ready attempts'
        end
      end
    end
  end.

Definition __enter__ : Method t :=
  self ← self_;
  sys (print Stdout ("正在 " +:+ base_url self +:+ " 启动 OpenHands API 服务器……"));;
  env ← sys (gets environ);
  p ← sys (popen ["python"; "-m"; "openhands.agent_server";
                  "--port"; pretty (port self); "--host"; host self]
                 (dict_merge {[ "LOG_JSON" := "true" ]} env));
  update (set_process (Some p));;
  update (set_stdout_thread (Some (mkThread (p_stdout p) "SERVER" Stdout true)));;
  update (set_stderr_thread (Some (mkThread (p_stderr p) "SERVER" Stderr true)));;
  sys (thread_start (mkThread (p_stdout p) "SERVER" Stdout true));;
  sys (thread_start (mkThread (p_stderr p) "SERVER" Stderr true));;
  ready ← wait_until_ready max_retries;
  match ready with
  | Some self => mret self
  | None => raise (not_started max_retries)
  end.

Definition __exit__ : Method unit :=
  self ← self_;
  match process self with
  | Some p =>
    sys (print Stdout "正在停止 API 服务器……");;
    sys (terminate p);;
    try_except
      (sys (wait p (Some 5000%N));; mret ())
      is_TimeoutExpired
      (λ _,
        sys (print Stdout "终止超时，正在强制杀死 API 服务器……");;
        sys (kill p);;
        sys (wait p None);;
        mret ());;
    sys (sleep 500);;
    sys (print Stdout "API 服务器已停止。")
  | None => mret ()
  end.

(** [with server as s: body s] *)
Definition with_ {A} (body : t → Method A) : Method A :=
  s ← __enter__;
  try_finally (body s) __exit__.

End ManagedAPIServer.

(** [thread.run()] of a forwarding thread *)
Definition run_thread (th : Thread) : M World unit :=
  _stream_output (t_stream th) (t_prefix th) (t_target th).

Import ManagedAPIServer.

(** ** Reading a trace *)

(** A health request that was answered with status 200. *)
Definition healthy_get (ev : Event) : bool :=
  match ev with
  | EvGet _ _ (Status c) => bool_decide (c = 200%Z)
  | _ => false
  end.

(** A call that acts on a child: a signal or a wait. *)
Definition touches_child (ev : Event) : bool :=
  match ev with
  | EvTerminate _ | EvKill _ | EvWait _ _ _ => true
  | _ => false
  end.

(** The time spent in [time.sleep], in milliseconds. *)
Fixpoint slept (evs : list (N * Event)) : N :=
  match evs with
  | [] => 0
  | (_, EvSleep d) :: evs' => d + slept evs'
  | _ :: evs' => slept evs'
  end.

(** The environment handed to the first child spawned in a trace. *)
Fixpoint spawn_env (evs : list (N * Event)) : option (gmap string string) :=
  match evs with
  | [] => None
  | (_, EvPopen _ _ env) :: _ => Some env
  | _ :: evs' => spawn_env evs'
  end.

(** The time the next [n] requests take. *)
Fixpoint request_time (w : World) (n : nat) : N :=
  match n with
  | 0 => 0
  | S n' => request_time w n' + took (net w (requests w + n'))
  end.

(** When process [p] ends (or will end), and its return code. *)
Definition end_of (w : World) (p : nat) : option (N * Z) :=
  match procs w !! p with
  | Some pr => death pr
  | None => None
  end.

(** ** Sample worlds *)

Definition refused : Reply := mkReply (Failure (LibraryError "connection refused")) 2.

Definition ready : Reply := mkReply (Status 200) 15.

(** A child that serves until it is told to stop. *)
Definition obedient : Behaviour := mkBehaviour None (Some (100%N, 0%Z)) 1 [] [].

(** A child that ignores SIGTERM. *)
Definition stubborn : Behaviour := mkBehaviour None None 20 [] [].

(** A child that crashes 300 ms after it is spawned. *)
Definition crashing : Behaviour := mkBehaviour (Some (300%N, 1%Z)) None 1 [] [].

(** A fresh parent: time 0, empty environment, nothing spawned or printed. *)
Definition fresh (replies : nat → Reply) (b : Behaviour) : World :=
  mkWorld 0 ∅ replies (λ _, b) (λ _, None) 0 [] [] [] (mkSink [] []) (mkSink [] []) [].


(** The server is up but not ready: it answers 503 after 50 ms. *)
Definition unavailable : Reply := mkReply (Status 503) 50.

(** The server is up but not ready, and slow: it answers 503 after 900 ms,
    within the timeout of the request. *)
Definition sluggish : Reply := mkReply (Status 503) 900.

(** The server answers 200 a little at a time: each network operation stays
    within the timeout, the request takes 2.4 seconds. *)
Definition trickling : Reply := mkReply (Status 200) 2400.

(** A child that crashes 950 ms after it is spawned. *)
Definition faltering : Behaviour := mkBehaviour (Some (950%N, 1%Z)) None 1 [] [].

(** The parent tries to start a child that crashes. *)
Definition crash_run : Outcome t * (World * t) :=
  __enter__ (fresh (λ _, refused) crashing, __init__ 8001 default_host).

(** The parent tries to start a child that never answers and never ends. *)
Definition stuck_run : Outcome t * (World * t) :=
  __enter__ (fresh (λ _, refused) stubborn, __init__ 8001 default_host).

(** The parent tries to start a child that never ends, at a server that is
    up but never ready. *)
Definition slow_run : Outcome t * (World * t) :=
  __enter__ (fresh (λ _, unavailable) stubborn, __init__ 8001 default_host).

(** The parent tries to start a child that crashes within the first second,
    at a server that answers slowly. *)
Definition sluggish_run : Outcome t * (World * t) :=
  __enter__ (fresh (λ _, sluggish) faltering, __init__ 8001 default_host).

(** ** Notions used in the statements *)

(** What follows a failed health check in one round of the loop. *)
Definition after_check (n : nat) (self : t) (p : Popen) (w : World)
    : Outcome (option t) * (World * t) :=
  match poll p w with
  | (Return (Some _), w') => (Raise exited_early, (w', self))
  | (Return None, w') => wait_until_ready n (snd (sleep 1000 w'), self)
  | (Raise e, w') => (Raise e, (w', self))
  | (Block, w') => (Block, (w', self))
  end.

(** What one run of the loop guarantees, from world [w] to world [w']. *)
Definition loop_post (n : nat) (self : t) (p : Popen) (w : World)
    (res : Outcome (option t) * (World * t)) : Prop :=
  ∃ r w' evs,
    res = (r, (w', self)) ∧
    procs w' = procs w ∧ net w' = net w ∧
    trace w' = trace w ++ evs ∧
    (clock w + slept evs ≤ clock w')%N ∧
    Forall (λ ev, touches_child ev.2 = false) evs ∧
    match r with
    | Return (Some s) =>
      s = self ∧
      ∃ evs0 t0,
        evs = evs0 ++ [(t0, EvGet (base_url self +:+ "/health") 1000 (Status 200))] ∧
        Forall (λ ev, healthy_get ev.2 = false) evs0
    | Return None =>
      Forall (λ ev, healthy_get ev.2 = false) evs ∧
      slept evs = (1000 * N.of_nat n)%N ∧
      (n ≠ 0 → returncode_at w' (pid p) (clock w' - 1000) = None)
    | Raise e =>
      e = exited_early ∧
      Forall (λ ev, healthy_get ev.2 = false) evs ∧
      ∃ evs0 rc,
        evs = evs0 ++ [(clock w', EvPoll (pid p) (Some rc))] ∧
        returncode w' (pid p) = Some rc
    | Block => False
    end.

(** The state in which [__enter__] starts to wait: the child is spawned, the
    handle and the two threads are stored, and the threads are started. *)
Definition launched (w : World) (port : Z) (host : string) : World * t :=
  let self := __init__ port host in
  let b := spawns w (length (procs w)) in
  let p := mkPopen (length (procs w)) (length (pipes w)) (S (length (pipes w))) in
  let args := ["python"; "-m"; "openhands.agent_server";
               "--port"; pretty port; "--host"; host] in
  let env := environ w ∪ {[ "LOG_JSON" := "true" ]} in
  let pr := mkProc args env b
              (match lifetime b with
               | Some (d, rc) => Some ((clock w + d)%N, rc)
               | None => None
               end) in
  let out := mkThread (p_stdout p) "SERVER" Stdout true in
  let err := mkThread (p_stderr p) "SERVER" Stderr true in
  (mkWorld (clock w) (environ w) (net w) (spawns w) (launch_fault w) (requests w)
     (procs w ++ [pr])
     (pipes w ++ [mkPipe (out_script b) false; mkPipe (err_script b) false])
     (threads w ++ [out; err])
     (mkSink (received (sys_stdout w) ++
                [Print ("正在 " +:+ base_url self +:+ " 启动 OpenHands API 服务器……")])
             (faults (sys_stdout w)))
     (sys_stderr w)
     (trace w ++ [(clock w, EvPopen p args env);
                  (clock w, EvThreadStart out);
                  (clock w, EvThreadStart err)]),
   mk port host (Some p) (base_url self) (Some out) (Some err)).

(** The world in which [__enter__] ends when the child cannot be launched:
    the announcement is printed and [Popen] has been called. *)
Definition not_launched (w : World) (port : Z) (host : string) : World :=
  let self := __init__ port host in
  let p := mkPopen (length (procs w)) (length (pipes w)) (S (length (pipes w))) in
  let args := ["python"; "-m"; "openhands.agent_server";
               "--port"; pretty port; "--host"; host] in
  let env := environ w ∪ {[ "LOG_JSON" := "true" ]} in
  mkWorld (clock w) (environ w) (net w) (spawns w) (launch_fault w) (requests w)
    (procs w) (pipes w) (threads w)
    (mkSink (received (sys_stdout w) ++
               [Print ("正在 " +:+ base_url self +:+ " 启动 OpenHands API 服务器……")])
            (faults (sys_stdout w)))
    (sys_stderr w)
    (trace w ++ [(clock w, EvPopen p args env)]).

(** When a process with record [pr] ends once SIGTERM is sent at time [now]. *)
Definition after_sigterm (pr : Proc) (now : N) : option (N * Z) :=
  match on_sigterm (behaviour pr) with
  | Some (d, rc) => sooner (death pr) (now + d)%N rc
  | None => death pr
  end.

Definition with_death (pr : Proc) (d : option (N * Z)) : Proc :=
  mkProc (argv pr) (penv pr) (behaviour pr) d.

#[global] Instance Fd_eq_dec : EqDecision Fd.
Proof. solve_decision. Defined.

(** The part of the world that the forwarding tasks never touch. *)
Definition same_os (w w' : World) : Prop :=
  clock w' = clock w ∧ environ w' = environ w ∧ net w' = net w ∧
  spawns w' = spawns w ∧ requests w' = requests w ∧ procs w' = procs w ∧
  threads w' = threads w ∧ trace w' = trace w.

(** What the forwarding task writes for one line. *)
Definition labelled (prefix line : string) : list SinkOp :=
  [Write ("[" +:+ prefix +:+ "] " +:+ line); Flush].

(** What a run of the forwarding task on pipe [i] towards [fd] leaves
    alone: the operating system, the other pipes, whether pipe [i] is open,
    and the other standard stream. *)
Definition forward_frame (i : nat) (fd : Fd) (w w' : World) : Prop :=
  same_os w w' ∧
  (∀ j, j ≠ i → pipes w' !! j = pipes w !! j) ∧
  closed <$> pipes w' !! i = closed <$> pipes w !! i ∧
  (∀ fd', fd' ≠ fd → sink fd' w' = sink fd' w).

(** A computation respects a relation on states when related states lead
    to the same outcome and to related states. *)
Definition respects {S A} (R : S → S → Prop) (m : M S A) : Prop :=
  ∀ s s', R s s' → (m s).1 = (m s').1 ∧ R (m s).2 (m s').2.


(** No coming [write] or [flush] on the stream fails. *)
Definition reliable (s : Sink) : Prop := Forall (λ f, f = None) (faults s).

(** The newline character that ends a line. *)
Definition nl : string := String (Ascii.ascii_of_nat 10) "".

(** A child that answers, logs two lines and ignores SIGTERM. *)
Definition chatty : Behaviour :=
  mkBehaviour None None 20 [Line ("starting" +:+ nl); Line ("listening" +:+ nl)] [].

(** A child whose stdout pipe breaks after the first line. *)
Definition garbled : Behaviour :=
  mkBehaviour None (Some (100%N, 0%Z)) 1
    [Line ("starting" +:+ nl); ReadFault (LibraryError "invalid start byte")] [].

(** A child that logs a warning to its stderr. *)
Definition complaining : Behaviour :=
  mkBehaviour None (Some (100%N, 0%Z)) 1 [] [Line ("warning" +:+ nl)].

(** The parent has started a child that answers at the second request. *)
Definition started (b : Behaviour) : World * t :=
  (__enter__ (fresh (λ i, if decide (i = 1) then ready else refused) b,
              __init__ 8001 default_host)).2.

(** The environment the specification describes for the child: the fixed
    flag, the inherited environment, and the overrides of the caller. *)
Definition spec_launch_env (inherited overrides : gmap string string)
    : gmap string string :=
  dict_merge (dict_merge {[ "LOG_JSON" := "true" ]} inherited) overrides.

(** ** Notions used in the further properties *)

(** The number of HTTP requests in a trace. *)
Fixpoint gets_in (evs : list (N * Event)) : nat :=
  match evs with
  | [] => 0
  | (_, EvGet _ _ _) :: evs' => S (gets_in evs')
  | _ :: evs' => gets_in evs'
  end.

(** The calls the readiness loop makes: requests to [url] with a timeout of
    one second, polls of child [q], sleeps of one second. *)
Definition loop_event (url : string) (q : nat) (ev : Event) : Prop :=
  match ev with
  | EvGet u t _ => u = url ∧ t = 1000%N
  | EvPoll p _ => p = q
  | EvSleep d => d = 1000%N
  | _ => False
  end.

(** The calls of the readiness loop leave the children, the pipes, the
    threads, [sys.stderr], the fault script of [sys.stdout] and the
    environment as they are. *)
Definition undisturbed (w w' : World) : Prop :=
  procs w' = procs w ∧ pipes w' = pipes w ∧ threads w' = threads w ∧
  sys_stderr w' = sys_stderr w ∧ faults (sys_stdout w') = faults (sys_stdout w) ∧
  environ w' = environ w.

(** What at most [n] rounds of the readiness loop do to the world: the time
    that passes is the time slept and the time the requests take. *)
Definition polled (url : string) (q : nat) (n : nat) (w w' : World) : Prop :=
  undisturbed w w' ∧
  net w' = net w ∧
  ∃ evs,
    trace w' = trace w ++ evs ∧
    Forall (λ ev, loop_event url q ev.2) evs ∧
    (gets_in evs ≤ n)%nat ∧ requests w' = (requests w + gets_in evs)%nat ∧
    (slept evs ≤ 1000 * N.of_nat n)%N ∧
    clock w' = (clock w + slept evs + request_time w (gets_in evs))%N.

(** A computation keeps the state it ends in related to the state it starts
    in. *)
Definition preserves {S A} (R : S → S → Prop) (m : M S A) : Prop :=
  ∀ s, R s (m s).2.

(** A relation on worlds, for method calls that leave the object alone. *)
Definition on_world (R : World → World → Prop) (st st' : World * t) : Prop :=
  R st.1 st'.1 ∧ st'.2 = st.2.

(** The calls [__exit__] makes on child [q]. *)
Definition acts_on (q : nat) (ev : Event) : Prop :=
  match ev with
  | EvTerminate p | EvKill p | EvWait p _ _ => p = q
  | EvSleep d => d = 500%N
  | _ => False
  end.

(** What stopping child [q] may change: the record of [q], the clock, the
    trace, and what [sys.stdout] has received. *)
Definition stopped (q : nat) (w w' : World) : Prop :=
  length (procs w') = length (procs w) ∧
  (∀ i, i ≠ q → procs w' !! i = procs w !! i) ∧
  pipes w' = pipes w ∧ threads w' = threads w ∧
  sys_stderr w' = sys_stderr w ∧ faults (sys_stdout w') = faults (sys_stdout w) ∧
  environ w' = environ w ∧ requests w' = requests w ∧
  (clock w ≤ clock w')%N ∧
  ∃ evs, trace w' = trace w ++ evs ∧ Forall (λ ev, acts_on q ev.2) evs.

(** A child that has crashed by the time the parent looks at it. *)
Definition stillborn : Behaviour := mkBehaviour (Some (0%N, 1%Z)) None 1 [] [].

(** The line the task prints to [sys.stderr] when its loop raises [e]. *)
Definition fault_report (prefix : string) (e : Exn) : SinkOp :=
  (Print ("转发 " +:+ prefix +:+ " 输出时出错: " +:+ str_exn e)).

(** The outcome of call number [k], counted from 0, among the coming calls
    on the stream. *)
Definition call_outcome (s : Sink) (k : nat) : Outcome unit :=
  match faults s !! k with
  | Some (Some e) => Raise e
  | _ => Return ()
  end.

(** What [sys.stderr] receives of the report of [e] when the print of the
    report ends in [r]. *)
Definition reported (r : Outcome unit) (prefix : string) (e : Exn) : list SinkOp :=
  match r with
  | Return _ => [fault_report prefix e]
  | _ => []
  end.

(** [sys.stderr] is gone: the next two calls on it raise. *)
Definition deaf_stderr (w : World) : World :=
  set_sink Stderr (mkSink [] [Some (LibraryError "Broken pipe");
                              Some (LibraryError "Broken pipe")]) w.

(** The first [k] coming calls on the stream succeed. *)
Definition reliable_for (k : nat) (s : Sink) : Prop :=
  Forall (λ f, f = None) (take k (faults s)).

(** [sys.stdout] breaks at its fourth call. *)
Definition breaking_stdout (w : World) : World :=
  set_sink Stdout (mkSink [] [None; None; None; Some (LibraryError "Broken pipe")]) w.

(** ** The wait for silence of the script

    The body of the with statement registers [event_callback] with the
    conversation and, after the first run, sleeps until no event has come
    for two seconds.  The callback runs on the thread of the conversation
    while the main thread sleeps; [feed] holds the events that are still to
    come, each with the time at which it arrives. *)

Module Script.

(** An event as the script looks at it: [type(event).__name__] and
    [str(event)]. *)
Record SdkEvent := mkSdkEvent {
  type_name : string;
  shown : string
}.

Record Vars := mkVars {
  received_events : list SdkEvent;
  last_event_time : N;          (* event_tracker["last_event_time"] *)
  logged : list string;         (* the messages given to logger.info *)
  feed : list (N * SdkEvent)    (* the events to come, in the order they arrive *)
}.

Abbreviation Step := (M (World * Vars)).

Definition os {A} (m : M World A) : Step A := λ st,
  match m st.1 with
  | (r, w') => (r, (w', st.2))
  end.

Definition assign (f : Vars → Vars) : Step unit := modify (λ st, (st.1, f st.2)).

(** [time.time()], in milliseconds *)
Definition time_time : Step N := gets (λ st, clock st.1).

Definition logger_info (msg : string) : Step unit :=
  assign (λ s, mkVars (received_events s) (last_event_time s) (logged s ++ [msg]) (feed s)).

Definition event_callback (event : SdkEvent) : Step unit :=
  let event_type := type_name event in
  logger_info ("🔔 回调收到事件: " +:+ event_type +:+ nl +:+ shown event);;
  assign (λ s, mkVars (received_events s ++ [event]) (last_event_time s) (logged s) (feed s));;
  now ← time_time;
  assign (λ s, mkVars (received_events s) now (logged s) (feed s)).

(** The main thread sleeps until [deadline]; the events that arrive by then
    are handed to the callback at the time they arrive. *)
Fixpoint sleep_until (deadline : N) (coming : list (N * SdkEvent)) : Step unit :=
  match coming with
  | (arrival, event) :: rest =>
    if (arrival <=? deadline)%N then
      os (now ← gets clock; advance (arrival - now));;
      assign (λ s, mkVars (received_events s) (last_event_time s) (logged s) rest);;
      event_callback event;;
      sleep_until deadline rest
    else os (now ← gets clock; advance (deadline - now))
  | [] => os (now ← gets clock; advance (deadline - now))
  end.

(** [time.sleep(d)] on the main thread *)
Definition time_sleep (d : N) : Step unit :=
  os (emit (EvSleep d));;
  now ← time_time;
  coming ← gets (λ st, feed st.2);
  sleep_until (now + d) coming.

(** [while time.time() - event_tracker["last_event_time"] < 2.0:
       time.sleep(0.1)] *)
Fixpoint wait_loop (fuel : nat) : Step unit :=
  match fuel with
  | 0 => block
  | S fuel' =>
    now ← time_time;
    last ← gets (λ st, last_event_time st.2);
    if (Z.of_N now - Z.of_N last <? 2000)%Z then
      time_sleep 100;;
      wait_loop fuel'
    else mret ()
  end.

(** Every round of the loop either hands an event to the callback or brings
    the two seconds of silence 100 ms nearer: 21 rounds for each event to
    come and 21 more are enough. *)
Definition wait_for_quiet : Step unit := λ st,
  wait_loop (21 * S (length (feed st.2))) st.

End Script.

(** The clock after the events [del] have been handed over, one after the
    other, from time [now] on. *)
Fixpoint clock_after (now : N) (del : list (N * Script.SdkEvent)) : N :=
  match del with
  | [] => now
  | p :: rest => clock_after (N.max now p.1) rest
  end.

(** The time of the last event, after the events [del] have been handed
    over from time [now] on. *)
Definition stamped (now last : N) (del : list (N * Script.SdkEvent)) : N :=
  match del with
  | [] => last
  | _ => clock_after now del
  end.

(** The rounds the loop still makes when no event comes. *)
Definition rounds_left (w : World) (s : Script.Vars) : nat :=
  N.to_nat ((Script.last_event_time s + 2099 - clock w) / 100).

(** The next event of the feed has not arrived yet. *)
Definition next_later (w : World) (s : Script.Vars) : Prop :=
  match Script.feed s with
  | p :: _ => (clock w < p.1)%N
  | [] => True
  end.

(** Each event of [feed] arrives less than two seconds after the one
    before; [prev] is the time of the event before the first. *)
Fixpoint gaps (prev : N) (feed : list (N * Script.SdkEvent)) : Prop :=
  match feed with
  | [] => True
  | p :: rest => (prev ≤ p.1 < prev + 2000)%N ∧ gaps p.1 rest
  end.

(** The time at which the last event of [feed] arrives. *)
Fixpoint last_arrival (prev : N) (feed : list (N * Script.SdkEvent)) : N :=
  match feed with
  | [] => prev
  | p :: rest => last_arrival p.1 rest
  end.

(** The events of [rest] begin after a pause of 2.1 seconds or more. *)
Definition late (prev : N) (rest : list (N * Script.SdkEvent)) : Prop :=
  match rest with
  | [] => True
  | p :: _ => (prev + 2100 ≤ p.1)%N
  end.

(** Three events in quick succession, and one more after a long pause. *)
Definition busy_feed : list (N * Script.SdkEvent) :=
  [(500%N, Script.mkSdkEvent "MessageEvent" "hello");
   (1800%N, Script.mkSdkEvent "ActionEvent" "ls");
   (3700%N, Script.mkSdkEvent "ObservationEvent" "FACTS.txt");
   (9000%N, Script.mkSdkEvent "ConversationStateUpdateEvent" "idle")].

(** The script at the start of its wait, with no event received so far. *)
Definition listening : World * Script.Vars :=
  (fresh (λ _, ready) obedient, Script.mkVars [] 0 [] busy_feed).

(** * Properties *)

Ltac run :=
  unfold mbind, M_bind, mret, M_ret, raise, block, try_except, try_finally,
    gets, modify, sys, self_, update, emit, advance in *.

(** ** System calls *)

Lemma httpx_get_inv url timeout w :
  ∃ w',
    httpx_get url timeout w =
      (match response (net w (requests w)) with
       | Status c => Return c
       | Failure e => Raise e
       end, w') ∧
    trace w' = trace w ++ [(clock w, EvGet url timeout (response (net w (requests w))))] ∧
    (clock w ≤ clock w')%N ∧ clock w' = (clock w + took (net w (requests w)))%N ∧
    procs w' = procs w ∧ requests w' = S (requests w) ∧ net w' = net w.
Proof.
  unfold httpx_get.
  destruct (response (net w (requests w))) as [c|e];
    (eexists; split; [reflexivity|]; simpl; repeat split; lia).
Qed.

Lemma poll_inv p w :
  ∃ w',
    poll p w = (Return (returncode w (pid p)), w') ∧
    trace w' = trace w ++ [(clock w, EvPoll (pid p) (returncode w (pid p)))] ∧
    clock w' = clock w ∧ procs w' = procs w ∧
    requests w' = requests w ∧ net w' = net w.
Proof. eexists. split; [reflexivity|]. simpl. done. Qed.

Lemma sleep_inv d w :
  ∃ w',
    sleep d w = (Return (), w') ∧
    trace w' = trace w ++ [(clock w, EvSleep d)] ∧
    clock w' = (clock w + d)%N ∧ procs w' = procs w ∧
    requests w' = requests w ∧ net w' = net w.
Proof. eexists. split; [reflexivity|]. simpl. done. Qed.

(** ** The readiness loop *)

Lemma wait_until_ready_S n w self p :
  process self = Some p →
  wait_until_ready (S n) (w, self) =
    match httpx_get (base_url self +:+ "/health") 1000 w with
    | (Return c, w') =>
      if decide (c = 200%Z) then
        (Return (Some self),
         (snd (print Stdout ("API 服务器已在 " +:+ base_url self +:+ " 就绪") w'), self))
      else after_check n self p w'
    | (Raise _, w') => after_check n self p w'
    | (Block, w') => (Block, (w', self))
    end.
Proof.
  intros Hp. unfold after_check. simpl wait_until_ready. run. simpl.
  destruct (httpx_get _ _ w) as [[c|e|] w']; simpl; try reflexivity.
  - destruct (decide (c = 200%Z)); simpl; [reflexivity|].
    rewrite Hp. destruct (returncode w' (pid p)); reflexivity.
  - rewrite Hp. destruct (returncode w' (pid p)); reflexivity.
Qed.

Arguments wait_until_ready : simpl never.

Lemma slept_app evs1 evs2 : slept (evs1 ++ evs2) = (slept evs1 + slept evs2)%N.
Proof.
  induction evs1 as [|[t0 ev] evs1 IH]; simpl; [done|].
  destruct ev; rewrite ?IH; lia.
Qed.

Lemma gets_in_app evs1 evs2 :
  gets_in (evs1 ++ evs2) = (gets_in evs1 + gets_in evs2)%nat.
Proof.
  induction evs1 as [|[t0 ev] evs1 IH]; simpl; [done|].
  destruct ev; rewrite ?IH; lia.
Qed.

Lemma returncode_at_frame w w' p t0 :
  procs w' = procs w → returncode_at w' p t0 = returncode_at w p t0.
Proof. unfold returncode_at. by intros ->. Qed.

Lemma after_check_post n self p w0 w url resp :
  let ev := (clock w0, EvGet url 1000 resp) in
  (∀ w1, loop_post n self p w1 (wait_until_ready n (w1, self))) →
  procs w = procs w0 → net w = net w0 →
  trace w = trace w0 ++ [ev] → (clock w0 ≤ clock w)%N →
  healthy_get ev.2 = false →
  loop_post (S n) self p w0 (after_check n self p w).
Proof.
  intros ev IH Hprocs Hnet Htrace Hclock Hev2. unfold after_check.
  assert (Hev1 : touches_child ev.2 = false) by done.
  destruct (poll_inv p w) as (w2 & -> & Htr2 & Hc2 & Hp2 & _ & Hn2).
  destruct (returncode w (pid p)) as [rc|] eqn:Hrc.
  - exists (Raise exited_early), w2, [ev; (clock w, EvPoll (pid p) (Some rc))].
    split; [done|]. repeat split; try congruence; try (simpl; lia).
    + rewrite Htr2, Htrace, <- app_assoc. done.
    + repeat constructor; done.
    + repeat constructor; done.
    + exists [ev], rc. split; [by rewrite Hc2|].
      unfold returncode in *. rewrite Hc2. by rewrite (returncode_at_frame w).
  - destruct (sleep_inv 1000 w2) as (w3 & Hsl & Htr3 & Hc3 & Hp3 & _ & Hn3).
    rewrite Hsl. simpl.
    destruct (IH w3) as (r & w' & evs & Heq & Hp' & Hn' & Htr' & Hc' & Hq & Hr).
    exists r, w', ([ev; (clock w, EvPoll (pid p) None); (clock w2, EvSleep 1000)] ++ evs).
    split; [done|]. repeat split; try congruence.
    + rewrite Htr', Htr3, Htr2, Htrace, <- !app_assoc. done.
    + rewrite slept_app. simpl. lia.
    + repeat constructor; done.
    + destruct r as [[s|]| |]; try done.
      * destruct Hr as (-> & evs0 & t0 & -> & Hh). split; [done|].
        exists ([ev; (clock w, EvPoll (pid p) None); (clock w2, EvSleep 1000)] ++ evs0), t0.
        split; [by rewrite <- app_assoc|]. repeat constructor; done.
      * destruct Hr as (Hh & Hs & Hlast). split; [repeat constructor; done|].
        split.
        { rewrite slept_app, Hs. simpl. lia. }
        intros _. destruct n as [|n].
        { unfold wait_until_ready in Heq. simpl in Heq. injection Heq as <-.
          rewrite Hc3, N.add_sub, Hc2.
          rewrite (returncode_at_frame w); [done|congruence]. }
        by apply Hlast.
      * destruct Hr as (-> & Hh & evs0 & rc & -> & Hrc'). split; [done|].
        split; [repeat constructor; done|].
        exists ([ev; (clock w, EvPoll (pid p) None); (clock w2, EvSleep 1000)] ++ evs0), rc.
        split; [by rewrite <- app_assoc|done].
Qed.

Lemma healthy_get_status url timeout c :
  healthy_get (EvGet url timeout (Status c)) = false ↔ c ≠ 200%Z.
Proof. simpl. by rewrite bool_decide_eq_false. Qed.

Lemma wait_until_ready_post n : ∀ self p w,
  process self = Some p →
  loop_post n self p w (wait_until_ready n (w, self)).
Proof.
  induction n as [|n IH]; intros self p w Hp.
  - exists (Return None), w, []. unfold wait_until_ready. simpl. rewrite app_nil_r.
    repeat split; try done; lia.
  - rewrite (wait_until_ready_S n w self p Hp).
    destruct (httpx_get_inv (base_url self +:+ "/health") 1000 w)
      as (w1 & -> & Htr1 & Hc1 & _ & Hp1 & _ & Hn1).
    destruct (response (net w (requests w))) as [c|e] eqn:Hans.
    + destruct (decide (c = 200%Z)) as [->|Hc].
      * eexists _, _, [(clock w, EvGet (base_url self +:+ "/health") 1000 (Status 200))].
        split; [reflexivity|]. simpl.
        repeat split; try done; try lia.
        { by constructor. }
        exists [], (clock w). split; [done|]. by constructor.
      * eapply after_check_post; eauto.
        by apply healthy_get_status.
    + eapply after_check_post; eauto.
Qed.

(** ** Entering the context *)

Lemma enter_unfold w port host :
  launch_fault w (length (procs w)) = None →
  __enter__ (w, __init__ port host) =
    match wait_until_ready max_retries (launched w port host) with
    | (Return (Some self), st) => (Return self, st)
    | (Return None, st) => (Raise (not_started max_retries), st)
    | (Raise e, st) => (Raise e, st)
    | (Block, st) => (Block, st)
    end.
Proof.
  intros Hl. unfold __enter__, launched. run. unfold popen, thread_start, print. run.
  simpl. rewrite Hl. simpl. rewrite <- !app_assoc. simpl.
  destruct (wait_until_ready max_retries _) as [[[s|]|e|] st]; reflexivity.
Qed.

(** When the child cannot be launched [__enter__] raises the error of
    [Popen], with nothing stored on the object. *)
Lemma enter_not_launched w port host msg :
  launch_fault w (length (procs w)) = Some msg →
  __enter__ (w, __init__ port host) =
    (Raise (LibraryError msg), (not_launched w port host, __init__ port host)).
Proof.
  intros Hl. unfold __enter__, not_launched. run. unfold popen, print. run.
  simpl. rewrite Hl. reflexivity.
Qed.

Lemma launched_process w port host :
  ∃ p, process (launched w port host).2 = Some p ∧ pid p = length (procs w).
Proof. eexists. split; reflexivity. Qed.

Lemma returncode_alive w p rc : returncode w p = Some rc → alive w p = false.
Proof.
  unfold returncode, returncode_at, alive.
  destruct (procs w !! p) as [pr|]; [|done].
  destruct (death pr) as [[d rc']|]; [|done].
  destruct (N.leb_spec d (clock w)); [|done].
  intros _. apply N.ltb_ge. done.
Qed.



Lemma launched_frame w port host :
  ∃ pr,
    procs (launched w port host).1 = procs w ++ [pr] ∧
    clock (launched w port host).1 = clock w ∧
    net (launched w port host).1 = net w ∧
    death pr =
      match lifetime (spawns w (length (procs w))) with
      | Some (d, rc) => Some ((clock w + d)%N, rc)
      | None => None
      end ∧
    ∃ evs, trace (launched w port host).1 = trace w ++ evs ∧
           Forall (λ ev, touches_child ev.2 = false) evs ∧
           slept evs = 0%N.
Proof.
  eexists. split; [reflexivity|]. repeat split.
  eexists. split; [reflexivity|]. split; [repeat constructor|reflexivity].
Qed.

(** When [__enter__] raises, the with statement runs neither its body nor
    [__exit__]. *)
Lemma with_enter_raises {A} (body : t → Method A) st e st' :
  __enter__ st = (Raise e, st') → with_ body st = (Raise e, st').
Proof. intros Hrun. unfold with_. run. by rewrite Hrun. Qed.

(** C2, as the code has it: when [__enter__] raises after the child has been
    launched, the handle of the child is stored on the object.  If the error
    is the early exit, the child has ended.  If the error is the timeout,
    [__enter__] has sent the child no signal and has not waited for it, and
    the child was still running at the last poll, one sleep before the raise.
    When the child could not be launched there is no child and no handle. *)
Theorem enter_failure_state w port host e w' self' :
  __enter__ (w, __init__ port host) = (Raise e, (w', self')) →
  (∃ msg, launch_fault w (length (procs w)) = Some msg ∧ e = LibraryError msg ∧
          process self' = None ∧ procs w' = procs w)
  ∨ ∃ p,
    process self' = Some p ∧ pid p = length (procs w) ∧
    (e = exited_early ∧ alive w' (pid p) = false
     ∨ e = not_started max_retries ∧
       (∃ evs, trace w' = trace w ++ evs ∧
               Forall (λ ev, touches_child ev.2 = false) evs) ∧
       returncode_at w' (pid p) (clock w' - 1000) = None).
Proof.
  destruct (launch_fault w (length (procs w))) as [msg|] eqn:Hfault.
  { rewrite (enter_not_launched w port host msg Hfault). intros [= <- <- <-].
    left. by exists msg. }
  rewrite enter_unfold by done. intros Hrun. right. revert Hrun.
  destruct (launched_process w port host) as (p & Hp & Hpid).
  destruct (launched_frame w port host) as (pr & _ & _ & _ & _ & evs1 & Htr1 & Hq1 & _).
  destruct (launched w port host) as [w1 self1]. simpl in *.
  destruct (wait_until_ready_post max_retries self1 p w1 Hp)
    as (r & w2 & evs & -> & _ & _ & Htr & _ & Hq & Hr).
  destruct r as [[s|]|e'|]; try done; intros [= <- <- <-]; exists p;
    (split; [done|]); (split; [done|]).
  - right. destruct Hr as (_ & _ & Hlast). split; [done|]. split.
    + exists (evs1 ++ evs). split; [by rewrite Htr, Htr1, <- app_assoc|].
      by apply Forall_app.
    + by apply Hlast.
  - left. destruct Hr as (-> & _ & evs0 & rc & _ & Hrc). split; [done|].
    by eapply returncode_alive.
Qed.

Lemma enter_failure_state_witness :
  crash_run = (Raise exited_early, (crash_run.2.1, crash_run.2.2)) ∧
  ((∃ msg, launch_fault (fresh (λ _, refused) crashing) 0 = Some msg ∧
           exited_early = LibraryError msg ∧
           process crash_run.2.2 = None ∧ procs crash_run.2.1 = [])
   ∨ ∃ p,
    process crash_run.2.2 = Some p ∧ pid p = 0 ∧
    (exited_early = exited_early ∧ alive crash_run.2.1 (pid p) = false
     ∨ exited_early = not_started max_retries ∧
       (∃ evs, trace crash_run.2.1 = [] ++ evs ∧
               Forall (λ ev, touches_child ev.2 = false) evs) ∧
       returncode_at crash_run.2.1 (pid p) (clock crash_run.2.1 - 1000) = None)).
Proof.
  split; [vm_compute; reflexivity|].
  apply (enter_failure_state (fresh (λ _, refused) crashing) 8001 default_host exited_early).
  vm_compute. reflexivity.
Defined.

(** C2, as stated, fails: a child that is still running when the retries run
    out is left running by [__enter__]. *)
Lemma enter_timeout_leaves_child_running :
  ¬ (∀ w port host e w' self' p,
       __enter__ (w, __init__ port host) = (Raise e, (w', self')) →
       process self' = Some p →
       alive w' (pid p) = false).
Proof.
  intros H.
  assert (Ha : alive stuck_run.2.1 (pid (mkPopen 0 0 1)) = false).
  { apply (H (fresh (λ _, refused) stubborn) 8001%Z default_host
             (not_started max_retries) stuck_run.2.1 stuck_run.2.2 (mkPopen 0 0 1)).
    - vm_compute. reflexivity.
    - vm_compute. reflexivity. }
  vm_compute in Ha. discriminate Ha.
Qed.

(** ** Running out of retries, and failing fast *)

Lemma healthy_get_answer url timeout r :
  r ≠ Status 200 → healthy_get (EvGet url timeout r) = false.
Proof.
  destruct r as [c|e]; [|done]. intros Hr. apply healthy_get_status. congruence.
Qed.

Lemma end_of_frame w w' p : procs w' = procs w → end_of w' p = end_of w p.
Proof. unfold end_of. by intros ->. Qed.

Lemma returncode_running w p :
  (∀ d rc, end_of w p = Some (d, rc) → (clock w < d)%N) → returncode w p = None.
Proof.
  unfold returncode, returncode_at, end_of. intros H.
  destruct (procs w !! p) as [pr|]; [|done].
  destruct (death pr) as [[d rc]|]; [|done].
  specialize (H d rc eq_refl).
  destruct (N.leb_spec d (clock w)); [lia|done].
Qed.

Lemma returncode_ended w p d rc :
  end_of w p = Some (d, rc) → (d ≤ clock w)%N → returncode w p = Some rc.
Proof.
  unfold returncode, returncode_at, end_of. intros H Hd.
  destruct (procs w !! p) as [pr|]; [|done]. rewrite H.
  destruct (N.leb_spec d (clock w)); [done|lia].
Qed.

Lemma request_time_ext w w' n :
  net w' = net w → requests w' = requests w → request_time w' n = request_time w n.
Proof. intros Hn Hr. induction n as [|n IH]; simpl; [done|]. by rewrite IH, Hn, Hr. Qed.

(** The time of [S n] requests is the time of the first and of the [n]
    that follow it. *)
Lemma request_time_shift w w' n :
  net w' = net w → requests w' = S (requests w) →
  request_time w (S n) = (took (net w (requests w)) + request_time w' n)%N.
Proof.
  intros Hn Hr. induction n as [|n IH].
  - simpl. rewrite Nat.add_0_r. lia.
  - change (request_time w (S (S n)))
      with (request_time w (S n) + took (net w (requests w + S n)))%N.
    rewrite IH. simpl. rewrite Hn, Hr.
    replace (S (requests w) + n) with (requests w + S n) by lia. lia.
Qed.

Arguments request_time : simpl never.

(** A failed check: the loop goes on to poll the child. *)
Lemma wait_until_ready_unhealthy n w self p :
  process self = Some p →
  response (net w (requests w)) ≠ Status 200 →
  ∃ w1,
    wait_until_ready (S n) (w, self) = after_check n self p w1 ∧
    trace w1 = trace w ++
      [(clock w, EvGet (base_url self +:+ "/health") 1000 (response (net w (requests w))))] ∧
    (clock w ≤ clock w1)%N ∧ clock w1 = (clock w + took (net w (requests w)))%N ∧
    procs w1 = procs w ∧ requests w1 = S (requests w) ∧ net w1 = net w.
Proof.
  intros Hp Hnet. rewrite (wait_until_ready_S n w self p Hp).
  destruct (httpx_get_inv (base_url self +:+ "/health") 1000 w)
    as (w1 & -> & Hrest).
  exists w1. split; [|done].
  destruct (response (net w (requests w))) as [c|e]; [|done].
  destruct (decide (c = 200%Z)) as [->|]; done.
Qed.

(** The child outlives the polls and no check succeeds: the loop runs out,
    after [n] requests and [n] sleeps. *)
Lemma wait_until_ready_starved n : ∀ self p w,
  process self = Some p →
  (∀ i, response (net w i) ≠ Status 200) →
  (∀ d rc, end_of w (pid p) = Some (d, rc) →
           (clock w + 1000 * N.of_nat n + request_time w n < d + 1000)%N) →
  ∃ w' evs,
    wait_until_ready n (w, self) = (Return None, (w', self)) ∧
    trace w' = trace w ++ evs ∧
    gets_in evs = n ∧ slept evs = (1000 * N.of_nat n)%N ∧
    clock w' = (clock w + 1000 * N.of_nat n + request_time w n)%N.
Proof.
  induction n as [|n IH]; intros self p w Hp Hnet Hlive.
  - exists w, []. rewrite app_nil_r. change (request_time w 0) with 0%N. simpl.
    repeat split; try done. lia.
  - destruct (wait_until_ready_unhealthy n w self p Hp (Hnet _))
      as (w1 & -> & Htr1 & _ & Hc1 & Hp1 & Hr1 & Hn1).
    unfold after_check.
    destruct (poll_inv p w1) as (w2 & -> & Htr2 & Hc2 & Hp2 & Hr2 & Hn2).
    destruct (sleep_inv 1000 w2) as (w3 & Hsl & Htr3 & Hc3 & Hp3 & Hr3 & Hn3).
    assert (Hshift : request_time w (S n) =
                     (took (net w (requests w)) + request_time w3 n)%N).
    { apply request_time_shift; congruence. }
    assert (Hrc : returncode w1 (pid p) = None).
    { apply returncode_running. intros d rc Hd. rewrite (end_of_frame w) in Hd by done.
      specialize (Hlive d rc Hd). lia. }
    rewrite Hrc in *. rewrite Hsl. change (Return (), w3).2 with w3.
    destruct (IH self p w3) as (w' & evs & -> & Htr & Hg & Hs & Hc'); [done| | |].
    + intros i. rewrite Hn3, Hn2, Hn1. apply Hnet.
    + intros d rc Hd. rewrite (end_of_frame w) in Hd by congruence.
      specialize (Hlive d rc Hd). lia.
    + exists w', ([(clock w, EvGet (base_url self +:+ "/health") 1000
                              (response (net w (requests w))));
                   (clock w1, EvPoll (pid p) None); (clock w2, EvSleep 1000)] ++ evs).
      split; [done|]. rewrite Htr, Htr3, Htr2, Htr1, <- !app_assoc.
      split; [done|]. rewrite gets_in_app, slept_app, Hg, Hs. simpl gets_in. simpl slept.
      repeat split; lia.
Qed.

(** The child ends during the retries and no check succeeds: the first poll
    at or after its end raises, after [i + 1] requests and [i] sleeps. *)
Lemma wait_until_ready_dead n : ∀ self p w d rc,
  process self = Some p →
  (∀ i, response (net w i) ≠ Status 200) →
  end_of w (pid p) = Some (d, rc) →
  (clock w < d + 1000)%N → (d + 1000 ≤ clock w + 1000 * N.of_nat n)%N →
  ∃ w' evs i,
    wait_until_ready n (w, self) = (Raise exited_early, (w', self)) ∧
    trace w' = trace w ++ evs ++ [(clock w', EvPoll (pid p) (Some rc))] ∧
    i < n ∧ gets_in evs = S i ∧ slept evs = (1000 * N.of_nat i)%N ∧
    clock w' = (clock w + 1000 * N.of_nat i + request_time w (S i))%N ∧
    (d ≤ clock w')%N ∧
    (clock w' < d + 1000 + took (net w (requests w + i)))%N ∧
    (clock w + slept evs < d + 1000)%N.
Proof.
  induction n as [|n IH]; intros self p w d rc Hp Hnet Hend Hlo Hhi; [lia|].
  destruct (wait_until_ready_unhealthy n w self p Hp (Hnet _))
    as (w1 & -> & Htr1 & _ & Hc1 & Hp1 & Hr1 & Hn1).
  unfold after_check.
  destruct (poll_inv p w1) as (w2 & -> & Htr2 & Hc2 & Hp2 & Hr2 & Hn2).
  destruct (N.le_gt_cases d (clock w1)) as [Hdead|Hrun].
  - assert (Hrc : returncode w1 (pid p) = Some rc).
    { apply (returncode_ended w1 (pid p) d rc); [|done]. by rewrite (end_of_frame w). }
    rewrite Hrc in *.
    eexists w2, [_], 0. split; [done|]. rewrite Htr2, Htr1, Hc2, <- app_assoc.
    split; [done|]. change (request_time w 1) with (0 + took (net w (requests w + 0)))%N.
    simpl. rewrite Nat.add_0_r. repeat split; lia.
  - assert (Hrc : returncode w1 (pid p) = None).
    { apply returncode_running. intros d' rc' Hd'.
      rewrite (end_of_frame w) in Hd' by done. congruence. }
    rewrite Hrc in *.
    destruct (sleep_inv 1000 w2) as (w3 & Hsl & Htr3 & Hc3 & Hp3 & Hr3 & Hn3).
    rewrite Hsl. change (Return (), w3).2 with w3.
    destruct (IH self p w3 d rc)
      as (w' & evs & i & -> & Htr & Hi & Hg & Hs & Hc & Hd & Hlast & Hsb);
      try done; try lia.
    + intros k. rewrite Hn3, Hn2, Hn1. apply Hnet.
    + rewrite (end_of_frame w); [done|congruence].
    + assert (Hshift : request_time w (S (S i)) =
                       (took (net w (requests w)) + request_time w3 (S i))%N).
      { apply request_time_shift; congruence. }
      assert (Hidx : requests w3 + i = requests w + S i) by lia.
      rewrite Hn3, Hn2, Hn1, Hidx in Hlast.
      exists w', ([(clock w, EvGet (base_url self +:+ "/health") 1000
                              (response (net w (requests w))));
                   (clock w1, EvPoll (pid p) None); (clock w2, EvSleep 1000)] ++ evs), (S i).
      split; [done|]. rewrite Htr, Htr3, Htr2, Htr1, <- !app_assoc.
      split; [done|]. rewrite gets_in_app, slept_app, Hg, Hs. simpl gets_in. simpl slept.
      repeat split; try done; lia.
Qed.

Lemma launched_end_of w port host :
  end_of (launched w port host).1 (length (procs w)) =
    match lifetime (spawns w (length (procs w))) with
    | Some (d, rc) => Some ((clock w + d)%N, rc)
    | None => None
    end.
Proof.
  unfold end_of, launched. simpl.
  rewrite lookup_app_r, Nat.sub_diag by lia. reflexivity.
Qed.

Lemma launched_request_time w port host n :
  request_time (launched w port host).1 n = request_time w n.
Proof. by apply request_time_ext. Qed.

(** The launch makes no request. *)
Lemma launched_gets w port host :
  ∃ evs, trace (launched w port host).1 = trace w ++ evs ∧
         gets_in evs = 0 ∧ slept evs = 0%N.
Proof. eexists. split; [reflexivity|]. done. Qed.

(** C4, as the code has it: when the child has been launched, no health
    check answers 200 and the child is still running at every poll,
    [__enter__] raises the timeout error after 30 requests and 30 sleeps of
    one second.  Its message names 30 seconds: the number of retries, which
    is the time spent in [time.sleep].  The time that has passed is longer by
    the time the 30 requests have taken. *)
Theorem enter_times_out w port host :
  launch_fault w (length (procs w)) = None →
  (∀ i, response (net w i) ≠ Status 200) →
  (∀ d rc, lifetime (spawns w (length (procs w))) = Some (d, rc) →
           (29000 + request_time w 30 < d)%N) →
  ∃ w' self' evs,
    __enter__ (w, __init__ port host)
      = (Raise (RuntimeError "服务器在 30 秒后仍未启动"), (w', self')) ∧
    trace w' = trace w ++ evs ∧
    gets_in evs = 30 ∧
    slept evs = (30 * 1000)%N ∧
    clock w' = (clock w + 30 * 1000 + request_time w 30)%N.
Proof.
  intros Hfault Hnet Hlive. rewrite enter_unfold by done.
  destruct (launched_process w port host) as (p & Hp & Hpid).
  destruct (launched_frame w port host) as (pr & _ & Hc1 & Hn1 & _).
  destruct (launched_gets w port host) as (evs1 & Htr1 & Hg1 & Hs1).
  pose proof (launched_end_of w port host) as Hend.
  pose proof (launched_request_time w port host max_retries) as Hrt.
  destruct (launched w port host) as [w1 self1]. simpl in *.
  destruct (wait_until_ready_starved max_retries self1 p w1 Hp)
    as (w' & evs & -> & Htr & Hg & Hs & Hc).
  { intros i. rewrite Hn1. apply Hnet. }
  { intros d rc Hd. rewrite Hpid, Hend in Hd.
    destruct (lifetime _) as [[d0 rc0]|] eqn:Hl; [|done].
    injection Hd as <- <-. specialize (Hlive d0 rc0 eq_refl).
    rewrite Hrt, Hc1. unfold max_retries in *. lia. }
  exists w', self1, (evs1 ++ evs).
  split; [reflexivity|]. split; [by rewrite Htr, Htr1, <- app_assoc|].
  rewrite gets_in_app, slept_app, Hg1, Hs1, Hg, Hs, Hc, Hrt, Hc1.
  unfold max_retries. repeat split; lia.
Qed.

Lemma enter_times_out_witness :
  ∃ w' self' evs,
    __enter__ (fresh (λ _, unavailable) stubborn, __init__ 8001 default_host)
      = (Raise (RuntimeError "服务器在 30 秒后仍未启动"), (w', self')) ∧
    trace w' = [] ++ evs ∧
    gets_in evs = 30 ∧
    slept evs = (30 * 1000)%N ∧
    clock w' = (0 + 30 * 1000 + request_time (fresh (λ _, unavailable) stubborn) 30)%N.
Proof.
  apply (enter_times_out (fresh (λ _, unavailable) stubborn) 8001 default_host).
  - reflexivity.
  - intros i. simpl. discriminate.
  - intros d rc. simpl. discriminate.
Defined.

(** C4, as stated, fails: the seconds the message names are not the seconds
    that have passed.  With requests that take 50 ms each, the call raises
    after 31.5 seconds and its message says 30. *)
Lemma enter_timeout_names_retries :
  ¬ (∀ w port host n w' self',
       __enter__ (w, __init__ port host) = (Raise (not_started n), (w', self')) →
       ((clock w' - clock w) / 1000)%N = N.of_nat n).
Proof.
  intros H.
  specialize (H (fresh (λ _, unavailable) stubborn) 8001%Z default_host 30
                slow_run.2.1 slow_run.2.2).
  assert (Hrun : __enter__ (fresh (λ _, unavailable) stubborn, __init__ 8001 default_host)
                 = (Raise (not_started 30), (slow_run.2.1, slow_run.2.2)))
    by (vm_compute; reflexivity).
  specialize (H Hrun). vm_compute in H. discriminate H.
Qed.

(** C3, as the code has it: when the child has been launched, ends within
    the first 29 seconds, and no health check answers 200, [__enter__]
    raises the early-exit error at the first poll that follows the end of
    the child, without using up the retries: the poll is the last call of
    the trace, it comes after [i + 1] requests and [i] sleeps, and no sleep
    begins after the child has ended.  The raise follows the end of the
    child by less than one sleep of a second and the time the last request
    takes.  For a child that ends within the first second it comes within
    two seconds of the start when the first two requests together take less
    than a second. *)
Theorem enter_fails_fast w port host d rc :
  launch_fault w (length (procs w)) = None →
  lifetime (spawns w (length (procs w))) = Some (d, rc) →
  (d ≤ 29000)%N →
  (∀ i, response (net w i) ≠ Status 200) →
  ∃ w' self' evs i,
    __enter__ (w, __init__ port host) = (Raise exited_early, (w', self')) ∧
    trace w' = trace w ++ evs ++ [(clock w', EvPoll (length (procs w)) (Some rc))] ∧
    i < 30 ∧ gets_in evs = S i ∧ slept evs = (1000 * N.of_nat i)%N ∧
    clock w' = (clock w + 1000 * N.of_nat i + request_time w (S i))%N ∧
    (slept evs < d + 1000)%N ∧
    (clock w + d ≤ clock w')%N ∧
    (clock w' < clock w + d + 1000 + took (net w (requests w + i)))%N ∧
    ((d ≤ 1000)%N →
     (took (net w (requests w)) + took (net w (requests w + 1)) < 1000)%N →
     (clock w' < clock w + 2000)%N).
Proof.
  intros Hfault Hlife Hd Hnet. rewrite enter_unfold by done.
  destruct (launched_process w port host) as (p & Hp & Hpid).
  destruct (launched_frame w port host) as (pr & _ & Hc1 & Hn1 & _).
  destruct (launched_gets w port host) as (evs1 & Htr1 & Hg1 & Hs1).
  pose proof (launched_end_of w port host) as Hend.
  pose proof (λ n, launched_request_time w port host n) as Hrt.
  assert (Hreq : requests (launched w port host).1 = requests w) by reflexivity.
  destruct (launched w port host) as [w1 self1]. simpl in *.
  rewrite Hlife, <- Hpid in Hend.
  destruct (wait_until_ready_dead max_retries self1 p w1 (clock w + d)%N rc Hp)
    as (w' & evs & i & -> & Htr & Hi & Hg & Hs & Hc & Hdead & Hlast & Hsb).
  { intros i. rewrite Hn1. apply Hnet. }
  { done. }
  { lia. }
  { unfold max_retries. lia. }
  exists w', self1, (evs1 ++ evs), i.
  split; [reflexivity|]. rewrite Htr, Htr1, <- !app_assoc, Hpid.
  split; [done|]. rewrite gets_in_app, slept_app, Hg1, Hs1, Hg, Hs.
  rewrite Hrt, Hc1 in Hc. rewrite Hn1, Hreq in Hlast. rewrite Hs, Hc1 in Hsb.
  unfold max_retries in Hi. do 7 (split; [first [done|lia]|]).
  intros Hd1 Htook. destruct i as [|[|i]]; [| |lia].
  - change (request_time w 1) with (0 + took (net w (requests w + 0)))%N in Hc.
    rewrite Nat.add_0_r in Hc. lia.
  - change (request_time w 2)
      with (0 + took (net w (requests w + 0)) + took (net w (requests w + 1)))%N in Hc.
    rewrite Nat.add_0_r in Hc. lia.
Qed.

Lemma enter_fails_fast_witness :
  ∃ w' self' evs i,
    __enter__ (fresh (λ _, refused) crashing, __init__ 8001 default_host)
      = (Raise exited_early, (w', self')) ∧
    trace w' = [] ++ evs ++ [(clock w', EvPoll 0 (Some 1%Z))] ∧
    i < 30 ∧ gets_in evs = S i ∧ slept evs = (1000 * N.of_nat i)%N ∧
    clock w' = (0 + 1000 * N.of_nat i + request_time (fresh (λ _, refused) crashing) (S i))%N ∧
    (slept evs < 300 + 1000)%N ∧
    (0 + 300 ≤ clock w')%N ∧
    (clock w' < 0 + 300 + 1000 + took refused)%N ∧
    ((300 ≤ 1000)%N → (took refused + took refused < 1000)%N → (clock w' < 0 + 2000)%N).
Proof.
  apply (enter_fails_fast (fresh (λ _, refused) crashing) 8001 default_host 300 1).
  - reflexivity.
  - reflexivity.
  - lia.
  - intros i. simpl. discriminate.
Defined.

(** C3, as stated, fails: the failure need not be observed within two
    seconds.  A child that ends after 950 ms, within the first polling
    interval, is still running at the first poll, which follows a request of
    900 ms, and is found dead at the second poll, which follows a sleep of a
    second and another request of 900 ms: the raise comes 2.8 seconds after
    the start. *)
Lemma enter_fails_after_slow_request :
  ¬ (∀ w port host d rc w' self',
       lifetime (spawns w (length (procs w))) = Some (d, rc) →
       (d ≤ 1000)%N →
       __enter__ (w, __init__ port host) = (Raise exited_early, (w', self')) →
       (clock w' < clock w + 2000)%N).
Proof.
  intros H.
  specialize (H (fresh (λ _, sluggish) faltering) 8001%Z default_host 950%N 1%Z
                sluggish_run.2.1 sluggish_run.2.2 eq_refl).
  assert (Hd : (950 ≤ 1000)%N) by lia.
  assert (Hrun : __enter__ (fresh (λ _, sluggish) faltering, __init__ 8001 default_host)
                 = (Raise exited_early, (sluggish_run.2.1, sluggish_run.2.2)))
    by (vm_compute; reflexivity).
  specialize (H Hd Hrun). vm_compute in H. discriminate H.
Qed.

(** The timeout of a request is no bound on the time it takes: a 200 that
    arrives after 2.4 seconds is accepted, and [__enter__] returns. *)
Example enter_accepts_slow_answer :
  let '(r, (w', self')) :=
    __enter__ (fresh (λ _, trickling) obedient, __init__ 8001 default_host) in
  r = Return self' ∧ clock w' = 2400%N ∧ gets_in (trace w') = 1.
Proof. vm_compute. done. Qed.

(** ** Leaving the context *)

Lemma terminate_inv p pr w :
  procs w !! pid p = Some pr →
  ∃ w',
    terminate p w = (Return (), w') ∧
    trace w' = trace w ++ [(clock w, EvTerminate (pid p))] ∧
    clock w' = clock w ∧
    procs w' !! pid p = Some (with_death pr (after_sigterm pr (clock w))).
Proof.
  intros Hpr. unfold terminate, signal. run. simpl. rewrite Hpr.
  eexists. split; [reflexivity|]. unfold after_sigterm, with_death.
  destruct (on_sigterm (behaviour pr)) as [[d rc]|]; simpl.
  - repeat split. apply list_lookup_insert_eq. by eapply lookup_lt_Some.
  - repeat split. rewrite Hpr. by destruct pr.
Qed.

Lemma kill_inv p pr w :
  procs w !! pid p = Some pr →
  ∃ w',
    kill p w = (Return (), w') ∧
    trace w' = trace w ++ [(clock w, EvKill (pid p))] ∧
    clock w' = clock w ∧
    procs w' !! pid p =
      Some (with_death pr (sooner (death pr) (clock w + on_sigkill (behaviour pr))%N (-9)%Z)).
Proof.
  intros Hpr. unfold kill, signal. run. simpl. rewrite Hpr.
  eexists. split; [reflexivity|]. simpl.
  repeat split. apply list_lookup_insert_eq. by eapply lookup_lt_Some.
Qed.

Lemma wait_ended p pr w timeout d rc :
  procs w !! pid p = Some pr → death pr = Some (d, rc) →
  match timeout with Some t => (d ≤ clock w + t)%N | None => True end →
  ∃ w',
    wait p timeout w = (Return rc, w') ∧
    trace w' = trace w ++ [(clock w, EvWait (pid p) timeout (Some rc))] ∧
    clock w' = N.max (clock w) d ∧
    procs w' = procs w.
Proof.
  intros Hpr Hd Ht. unfold wait. rewrite Hpr, Hd.
  destruct timeout as [t|].
  - destruct (N.leb_spec d (clock w + t)); [|lia].
    eexists. split; [reflexivity|]. done.
  - eexists. split; [reflexivity|]. done.
Qed.

Lemma wait_expired p pr w t :
  procs w !! pid p = Some pr →
  (∀ d rc, death pr = Some (d, rc) → (clock w + t < d)%N) →
  ∃ w',
    wait p (Some t) w = (Raise (TimeoutExpired t), w') ∧
    trace w' = trace w ++ [(clock w, EvWait (pid p) (Some t) None)] ∧
    clock w' = (clock w + t)%N ∧
    procs w' = procs w.
Proof.
  intros Hpr Hd. unfold wait. rewrite Hpr.
  destruct (death pr) as [[d rc]|].
  - specialize (Hd d rc eq_refl).
    destruct (N.leb_spec d (clock w + t)); [lia|].
    eexists. split; [reflexivity|]. done.
  - eexists. split; [reflexivity|]. done.
Qed.

Lemma alive_ended w p pr d rc :
  procs w !! p = Some pr → death pr = Some (d, rc) → (d ≤ clock w)%N →
  alive w p = false.
Proof.
  intros Hpr Hd Hle. unfold alive. rewrite Hpr, Hd. by apply N.ltb_ge.
Qed.

Lemma print_inv fd text w :
  ∃ w',
    print fd text w = (Return (), w') ∧
    trace w' = trace w ∧ clock w' = clock w ∧ procs w' = procs w ∧
    pipes w' = pipes w.
Proof. eexists. split; [reflexivity|]. by destruct fd. Qed.

Lemma sooner_spec d t0 rc :
  ∃ t1 rc1, sooner d t0 rc = Some (t1, rc1) ∧ (t1 ≤ t0)%N ∧
    (∀ t2 rc2, d = Some (t2, rc2) → (t1 ≤ t2)%N) ∧
    (t1 = t0 ∨ ∃ rc2, d = Some (t1, rc2)).
Proof.
  unfold sooner. destruct d as [[t2 rc2]|].
  - destruct (N.leb_spec t2 t0).
    + exists t2, rc2. repeat split; [done| |by eauto]. intros ?? [= <- <-]. lia.
    + exists t0, rc. repeat split; [lia| |by eauto]. intros ?? [= <- <-]. lia.
  - exists t0, rc. repeat split; [lia|done|by eauto].
Qed.

Opaque terminate kill wait sleep print.

(** C5: for a started child, [__exit__] sends SIGTERM and waits at most
    five seconds.  If the child ends within them, [__exit__] goes on at that
    moment; if not, it sends SIGKILL exactly five seconds after SIGTERM and
    waits without a timeout until the child is gone.  In both cases it
    then sleeps half a second and returns, and the child is not running
    any more. *)
Theorem exit_stops_child w self p pr :
  process self = Some p →
  procs w !! pid p = Some pr →
  ∃ w',
    __exit__ (w, self) = (Return (), (w', self)) ∧
    alive w' (pid p) = false ∧
    ((∃ d rc,
        after_sigterm pr (clock w) = Some (d, rc) ∧ (d ≤ clock w + 5000)%N ∧
        trace w' = trace w ++
          [(clock w, EvTerminate (pid p));
           (clock w, EvWait (pid p) (Some 5000%N) (Some rc));
           (N.max (clock w) d, EvSleep 500)] ∧
        clock w' = (N.max (clock w) d + 500)%N)
     ∨
     ((∀ d rc, after_sigterm pr (clock w) = Some (d, rc) → (clock w + 5000 < d)%N) ∧
      ∃ d rc,
        (clock w + 5000 ≤ d)%N ∧ (d ≤ clock w + 5000 + on_sigkill (behaviour pr))%N ∧
        trace w' = trace w ++
          [(clock w, EvTerminate (pid p));
           (clock w, EvWait (pid p) (Some 5000%N) None);
           ((clock w + 5000)%N, EvKill (pid p));
           ((clock w + 5000)%N, EvWait (pid p) None (Some rc));
           (d, EvSleep 500)] ∧
        clock w' = (d + 500)%N)).
Proof.
  intros Hp Hpr. unfold __exit__. run. simpl. rewrite Hp.
  destruct (print_inv Stdout "正在停止 API 服务器……" w)
    as (w1 & -> & Htr1 & Hc1 & Hp1 & _).
  rewrite <- Hp1 in Hpr.
  destruct (terminate_inv p pr w1 Hpr) as (w2 & -> & Htr2 & Hc2 & Hpr2).
  rewrite Hc1 in *. set (pr2 := with_death pr _) in Hpr2.
  assert (Hcase :
    (∃ d rc, after_sigterm pr (clock w) = Some (d, rc) ∧ (d ≤ clock w + 5000)%N) ∨
    (∀ d rc, after_sigterm pr (clock w) = Some (d, rc) → (clock w + 5000 < d)%N)).
  { destruct (after_sigterm pr (clock w)) as [[d rc]|]; [|by right].
    destruct (N.le_gt_cases d (clock w + 5000)); [left; eauto|].
    right. by intros ?? [= <- <-]. }
  destruct Hcase as [(d & rc & Hend & Hin)|Hlate].
  - destruct (wait_ended p pr2 w2 (Some 5000%N) d rc Hpr2 Hend)
      as (w3 & -> & Htr3 & Hc3 & Hp3); [lia|].
    destruct (sleep_inv 500 w3) as (w4 & -> & Htr4 & Hc4 & Hp4 & _).
    destruct (print_inv Stdout "API 服务器已停止。" w4)
      as (w5 & -> & Htr5 & Hc5 & Hp5 & _).
    exists w5. split; [done|]. split.
    { apply (alive_ended w5 (pid p) pr2 d rc); [congruence|done|lia]. }
    left. exists d, rc. split; [done|]. split; [done|]. split; [|lia].
    rewrite Htr5, Htr4, Htr3, Htr2, Htr1, <- !app_assoc, Hc3, Hc2. done.
  - destruct (wait_expired p pr2 w2 5000 Hpr2) as (w3 & -> & Htr3 & Hc3 & Hp3).
    { intros d rc Hd. specialize (Hlate d rc Hd). lia. }
    simpl.
    destruct (print_inv Stdout "终止超时，正在强制杀死 API 服务器……" w3)
      as (w4 & -> & Htr4 & Hc4 & Hp4 & _).
    rewrite <- Hp3, <- Hp4 in Hpr2.
    destruct (kill_inv p pr2 w4 Hpr2) as (w5 & -> & Htr5 & Hc5 & Hpr5).
    destruct (sooner_spec (death pr2) (clock w4 + on_sigkill (behaviour pr2)) (-9))
      as (d & rc & Hso & Hhi & Hlo & Hfrom).
    rewrite Hso in Hpr5. set (pr5 := with_death pr2 _) in Hpr5.
    assert (Hd : (clock w + 5000 ≤ d)%N).
    { destruct Hfrom as [->|[rc2 Hd2]]; [lia|].
      specialize (Hlate d rc2 Hd2). lia. }
    destruct (wait_ended p pr5 w5 None d rc Hpr5 eq_refl)
      as (w6 & -> & Htr6 & Hc6 & Hp6); [done|].
    destruct (sleep_inv 500 w6) as (w7 & -> & Htr7 & Hc7 & Hp7 & _).
    destruct (print_inv Stdout "API 服务器已停止。" w7)
      as (w8 & -> & Htr8 & Hc8 & Hp8 & _).
    exists w8. split; [done|]. split.
    { apply (alive_ended w8 (pid p) pr5 d rc); [congruence|done|lia]. }
    right. split; [done|]. exists d, rc.
    assert (Hmax : N.max (clock w5) d = d) by lia.
    split; [done|]. split; [simpl in Hhi; lia|]. split; [|lia].
    rewrite Htr8, Htr7, Htr6, Htr5, Htr4, Htr3, Htr2, Htr1, <- !app_assoc.
    rewrite Hc6, Hmax, Hc5, Hc4, Hc3, Hc2. done.
Qed.

Transparent terminate kill wait sleep print.

(** ** The forwarding task *)

Lemma same_os_refl w : same_os w w.
Proof. by repeat split. Qed.

Lemma same_os_trans w1 w2 w3 : same_os w1 w2 → same_os w2 w3 → same_os w1 w3.
Proof. unfold same_os. intros H1 H2. destruct_and!. repeat split; congruence. Qed.

Lemma forward_frame_refl i fd w : forward_frame i fd w w.
Proof. split; [apply same_os_refl|done]. Qed.

Lemma forward_frame_trans i fd w1 w2 w3 :
  forward_frame i fd w1 w2 → forward_frame i fd w2 w3 → forward_frame i fd w1 w3.
Proof.
  intros (Ho1 & Hp1 & Hc1 & Hs1) (Ho2 & Hp2 & Hc2 & Hs2).
  split; [by eapply same_os_trans|]. split; [|split].
  - intros j Hj. rewrite Hp2, Hp1; done.
  - congruence.
  - intros fd' Hfd. rewrite Hs2, Hs1; done.
Qed.

Lemma sink_set_sink fd fd' s w :
  sink fd' (set_sink fd s w) = if decide (fd' = fd) then s else sink fd' w.
Proof. by destruct fd, fd'. Qed.

Lemma pipes_set_sink fd s w : pipes (set_sink fd s w) = pipes w.
Proof. by destruct fd. Qed.

Lemma same_os_set_sink fd s w : same_os w (set_sink fd s w).
Proof. by destruct fd. Qed.

Lemma sink_call_inv fd op w :
  ∃ r w',
    sink_call fd op w = (r, w') ∧
    same_os w w' ∧ pipes w' = pipes w ∧
    (∀ fd', fd' ≠ fd → sink fd' w' = sink fd' w) ∧
    match r with
    | Return _ =>
      received (sink fd w') = received (sink fd w) ++ [op] ∧
      faults (sink fd w') = tail (faults (sink fd w))
    | Raise e =>
      received (sink fd w') = received (sink fd w) ∧
      faults (sink fd w) = Some e :: faults (sink fd w')
    | Block => False
    end.
Proof.
  unfold sink_call.
  assert (Hf : ∀ s fd', fd' ≠ fd → sink fd' (set_sink fd s w) = sink fd' w).
  { intros s fd' Hfd. rewrite sink_set_sink. by destruct (decide (fd' = fd)). }
  destruct (faults (sink fd w)) as [|[e|] rest] eqn:Hfl;
    eexists _, _; (split; [reflexivity|]); (split; [apply same_os_set_sink|]);
    rewrite pipes_set_sink, sink_set_sink, decide_True by done;
    (split; [done|]); (split; [apply Hf|]); done.
Qed.

Lemma readline_inv i w :
  ∃ r w',
    readline i w = (r, w') ∧
    same_os w w' ∧
    (∀ j, j ≠ i → pipes w' !! j = pipes w !! j) ∧
    closed <$> pipes w' !! i = closed <$> pipes w !! i ∧
    (∀ fd, sink fd w' = sink fd w) ∧
    r ≠ Block ∧
    (∀ l, r = Return l → l ≠ "" → (pending i w' < pending i w)%nat) ∧
    (pending i w' ≤ pending i w)%nat.
Proof.
  unfold readline, pending.
  destruct (pipes w !! i) as [[inc [|]]|] eqn:Hp.
  - eexists _, _. split; [reflexivity|]. rewrite Hp. by repeat split.
  - assert (Hlt : i < length (pipes w)) by by eapply lookup_lt_Some.
    destruct inc as [|[l|e] rest];
      eexists _, _; (split; [reflexivity|]); simpl;
      rewrite ?Hp, ?list_lookup_insert_eq by done; simpl;
      repeat split; try done; try lia;
      try (intros j Hj; by rewrite list_lookup_insert_ne);
      try (by destruct fd).
    by intros l [= <-].
  - eexists _, _. split; [reflexivity|]. rewrite Hp. by repeat split.
Qed.

(** One round of the loop of [forward_lines]. *)
Lemma forward_lines_S n i prefix fd w :
  forward_lines (S n) i prefix fd w =
    match readline i w with
    | (Return line, w1) =>
      if decide (line = "") then (Return (), w1)
      else
        match write fd ("[" +:+ prefix +:+ "] " +:+ line) w1 with
        | (Return _, w2) =>
          match flush fd w2 with
          | (Return _, w3) => forward_lines n i prefix fd w3
          | (Raise e, w3) => (Raise e, w3)
          | (Block, w3) => (Block, w3)
          end
        | (Raise e, w2) => (Raise e, w2)
        | (Block, w2) => (Block, w2)
        end
    | (Raise e, w1) => (Raise e, w1)
    | (Block, w1) => (Block, w1)
    end.
Proof.
  simpl. run.
  destruct (readline i w) as [[line|e|] w1]; try reflexivity.
  destruct (decide (line = "")) as [|Hne]; [reflexivity|].
  rewrite decide_True by done.
  destruct (write fd _ w1) as [[[]|e|] w2]; reflexivity.
Qed.

Arguments forward_lines : simpl never.

(** The loop of the forwarding task ends, and touches only its pipe and
    its target. *)
Lemma forward_lines_frame i prefix fd n : ∀ w,
  pending i w < n →
  ∃ r w',
    forward_lines n i prefix fd w = (r, w') ∧ r ≠ Block ∧
    forward_frame i fd w w'.
Proof.
  induction n as [|n IH]; intros w Hn; [lia|].
  rewrite forward_lines_S.
  destruct (readline_inv i w)
    as (r1 & w1 & -> & Ho1 & Hp1 & Hc1 & Hs1 & Hb1 & Hdec & _).
  assert (Hf1 : forward_frame i fd w w1).
  { split; [done|]. split; [done|]. split; [done|]. intros fd' _. apply Hs1. }
  destruct r1 as [line|e|]; [|by eauto|done].
  destruct (decide (line = "")) as [->|Hne]; [by eauto|].
  specialize (Hdec line eq_refl Hne).
  destruct (sink_call_inv fd (Write ("[" +:+ prefix +:+ "] " +:+ line)) w1)
    as (r2 & w2 & Hw & Ho2 & Hp2 & Hs2 & Hr2).
  unfold write, flush. rewrite Hw.
  assert (Hf2 : forward_frame i fd w w2).
  { eapply forward_frame_trans; [done|]. split; [done|]. by rewrite Hp2. }
  destruct r2 as [[]|e|]; [|by eauto|done].
  destruct (sink_call_inv fd Flush w2) as (r3 & w3 & -> & Ho3 & Hp3 & Hs3 & Hr3).
  assert (Hf3 : forward_frame i fd w w3).
  { eapply forward_frame_trans; [done|]. split; [done|]. by rewrite Hp3. }
  destruct r3 as [[]|e|]; [|by eauto|done].
  destruct (IH w3) as (r & w' & -> & Hb & Hf).
  { unfold pending in *. rewrite Hp3, Hp2. lia. }
  exists r, w'. split; [done|]. split; [done|].
  by eapply forward_frame_trans.
Qed.

(** ** The shutdown sequence and the forwarding tasks *)


Lemma respects_raise {S A} (R : S → S → Prop) e : respects R (@raise S A e).
Proof. by intros s s' HR. Qed.













(** ** What the forwarding task guarantees *)

Lemma close_inv i w :
  ∃ w',
    close i w = (Return (), w') ∧
    same_os w w' ∧
    (∀ j, j ≠ i → pipes w' !! j = pipes w !! j) ∧
    (∀ p, pipes w !! i = Some p → pipes w' !! i = Some (mkPipe (incoming p) true)) ∧
    (∀ fd, sink fd w' = sink fd w).
Proof.
  unfold close. run. eexists. split; [reflexivity|].
  destruct (pipes w !! i) as [p|] eqn:Hp; [|by repeat split].
  simpl. repeat split; try done.
  - intros j Hj. by rewrite list_lookup_insert_ne.
  - intros ? [= <-]. apply list_lookup_insert_eq. by eapply lookup_lt_Some.
Qed.

Lemma stream_output_unfold i prefix fd w :
  _stream_output i prefix fd w =
    match forward_lines (S (pending i w)) i prefix fd w with
    | (Return _, w1) => (Return (), (close i w1).2)
    | (Raise e, w1) =>
      match print_file Stderr ("转发 " +:+ prefix +:+ " 输出时出错: " +:+ str_exn e) w1 with
      | (r, w2) => (r, (close i w2).2)
      end
    | (Block, w1) => (Block, (close i w1).2)
    end.
Proof.
  unfold _stream_output. run. simpl.
  destruct (forward_lines _ i prefix fd w) as [[[]|e|] w1]; try reflexivity.
Qed.

(** The print of the report is the next call on [sys.stderr]. *)
Lemma report_inv prefix e w :
  ∃ w',
    print_file Stderr ("转发 " +:+ prefix +:+ " 输出时出错: " +:+ str_exn e) w
      = (call_outcome (sys_stderr w) 0, w') ∧
    same_os w w' ∧ pipes w' = pipes w ∧ sys_stdout w' = sys_stdout w ∧
    received (sys_stderr w') =
      received (sys_stderr w) ++ reported (call_outcome (sys_stderr w) 0) prefix e ∧
    faults (sys_stderr w') = tail (faults (sys_stderr w)).
Proof.
  unfold print_file, sink_call, call_outcome, reported, fault_report. simpl.
  destruct (faults (sys_stderr w)) as [|[e'|] fl]; simpl;
    (eexists; split; [reflexivity|]); simpl; rewrite ?app_nil_r; by repeat split.
Qed.

Lemma call_outcome_reliable s k : reliable s → call_outcome s k = Return ().
Proof.
  unfold reliable, call_outcome. intros Hrel.
  destruct (faults s !! k) as [[e|]|] eqn:Hk; [|done..].
  rewrite Forall_forall in Hrel. by specialize (Hrel _ (list_elem_of_lookup_2 _ _ _ Hk)).
Qed.

Lemma reliable_tail s s' : faults s' = tail (faults s) → reliable s → reliable s'.
Proof.
  unfold reliable. intros -> Hrel. destruct (faults s); [done|]. by inversion Hrel.
Qed.

Lemma sink_call_keeps_reliable fd op w fd' :
  reliable (sink fd' w) → reliable (sink fd' (sink_call fd op w).2).
Proof.
  intros Hrel. destruct (sink_call_inv fd op w) as (r & w' & -> & _ & _ & Hs & Hr).
  simpl. destruct (decide (fd' = fd)) as [->|Hne]; [|by rewrite Hs].
  destruct r as [[]|e|]; [| |done].
  - destruct Hr as [_ Hfl]. by eapply reliable_tail.
  - destruct Hr as [_ Hfl]. unfold reliable in *. rewrite Hfl in Hrel. by inversion Hrel.
Qed.

(** A stream without coming faults has none after the loop. *)
Lemma forward_lines_keeps_reliable i prefix fd fd' n : ∀ w,
  reliable (sink fd' w) → reliable (sink fd' (forward_lines n i prefix fd w).2).
Proof.
  induction n as [|n IH]; intros w Hrel; [done|].
  rewrite forward_lines_S.
  destruct (readline_inv i w) as (r1 & w1 & -> & _ & _ & _ & Hs1 & _).
  assert (Hrel1 : reliable (sink fd' w1)) by by rewrite Hs1.
  destruct r1 as [line|e|]; [|done..].
  destruct (decide (line = "")); [done|].
  pose proof (sink_call_keeps_reliable fd (Write ("[" +:+ prefix +:+ "] " +:+ line)) w1 fd' Hrel1)
    as Hrel2.
  unfold write, flush.
  destruct (sink_call fd (Write _) w1) as [[[]|e|] w2]; [|done..]. simpl in Hrel2.
  pose proof (sink_call_keeps_reliable fd Flush w2 fd' Hrel2) as Hrel3.
  destruct (sink_call fd Flush w2) as [[[]|e|] w3]; [|done..]. by apply IH.
Qed.

(** How a run of the task ends: with the outcome of the loop when the loop
    returns, and with the outcome of the print of the report when the loop
    raises; the source is closed in both cases. *)
Lemma stream_output_ends stream prefix target_stream w :
  ∃ r0 w1 r w',
    forward_lines (S (pending stream w)) stream prefix target_stream w = (r0, w1) ∧
    _stream_output stream prefix target_stream w = (r, w') ∧
    r0 ≠ Block ∧ forward_frame stream target_stream w w1 ∧
    match r0 with
    | Raise e =>
      r = call_outcome (sys_stderr w1) 0 ∧
      received (sys_stderr w') = received (sys_stderr w1) ++ reported r prefix e ∧
      faults (sys_stderr w') = tail (faults (sys_stderr w1))
    | _ => r = Return () ∧ sys_stderr w' = sys_stderr w1
    end ∧
    same_os w1 w' ∧ sys_stdout w' = sys_stdout w1 ∧
    (∀ j, j ≠ stream → pipes w' !! j = pipes w1 !! j) ∧
    (∀ p, pipes w1 !! stream = Some p →
          pipes w' !! stream = Some (mkPipe (incoming p) true)).
Proof.
  rewrite stream_output_unfold.
  destruct (forward_lines_frame stream prefix target_stream (S (pending stream w)) w)
    as (r0 & w1 & Hloop & Hb & Hf); [lia|].
  rewrite Hloop. exists r0, w1.
  destruct r0 as [[]|e|]; [| |done].
  - destruct (close_inv stream w1) as (w' & Hcl & Ho & Hp & Hi & Hs).
    rewrite Hcl. exists (Return ()), w'. split; [done|]. split; [done|]. split; [done|].
    split; [done|]. split; [split; [done|apply (Hs Stderr)]|].
    split; [done|]. split; [apply (Hs Stdout)|]. done.
  - destruct (report_inv prefix e w1) as (w2 & -> & Ho2 & Hp2 & Hout2 & Hr2 & Hf2).
    destruct (close_inv stream w2) as (w' & Hcl & Ho & Hp & Hi & Hs).
    rewrite Hcl. exists (call_outcome (sys_stderr w1) 0), w'.
    split; [done|]. split; [done|]. split; [done|]. split; [done|].
    pose proof (Hs Stderr) as Herr. pose proof (Hs Stdout) as Hout. simpl in Herr, Hout.
    split; [by rewrite Herr|]. split; [by eapply same_os_trans|].
    split; [congruence|]. split.
    + intros j Hj. by rewrite Hp, Hp2.
    + intros p Hp1. apply Hi. by rewrite Hp2.
Qed.

(** C10: whatever the pipe delivers and whichever call fails, the
    forwarding task ends, and has closed its source by then.  It returns
    when its loop returns and when [sys.stderr] takes the report of an
    error; when the print of the report raises, the task raises that error
    with its source closed all the same. *)
Theorem stream_output_closes_source stream prefix target_stream w p :
  pipes w !! stream = Some p →
  ∃ r w' p',
    _stream_output stream prefix target_stream w = (r, w') ∧
    r ≠ Block ∧ (reliable (sys_stderr w) → r = Return ()) ∧
    pipes w' !! stream = Some p' ∧ closed p' = true.
Proof.
  intros Hp.
  destruct (stream_output_ends stream prefix target_stream w)
    as (r0 & w1 & r & w' & Hloop & Hrun & Hb & (_ & _ & Hc & _) & Hr & _ & _ & _ & Hi).
  rewrite Hp in Hc. destruct (pipes w1 !! stream) as [p1|] eqn:Hp1; [|done].
  exists r, w', (mkPipe (incoming p1) true). split; [done|].
  assert (Hrel : reliable (sys_stderr w) → reliable (sys_stderr w1)).
  { intros Hrel.
    pose proof (forward_lines_keeps_reliable stream prefix target_stream Stderr
                  (S (pending stream w)) w Hrel) as H1.
    by rewrite Hloop in H1. }
  split; [|split; [|split; [by apply Hi|done]]].
  - destruct r0 as [[]|e|]; [by destruct Hr as [-> _]| |done].
    destruct Hr as (-> & _). unfold call_outcome. by destruct (faults _ !! 0) as [[|]|].
  - intros Hrel0. destruct r0 as [[]|e|]; [by destruct Hr as [-> _]| |done].
    destruct Hr as (-> & _). apply call_outcome_reliable. by apply Hrel.
Qed.

Lemma sink_call_reliable fd op w :
  reliable (sink fd w) →
  ∃ w',
    sink_call fd op w = (Return (), w') ∧
    pipes w' = pipes w ∧
    received (sink fd w') = received (sink fd w) ++ [op] ∧
    reliable (sink fd w').
Proof.
  intros Hrel.
  destruct (sink_call_inv fd op w) as (r & w' & -> & _ & Hp & _ & Hr).
  unfold reliable in *. destruct r as [[]|e|]; [|exfalso|done].
  - destruct Hr as [Hrec Hfl]. exists w'. repeat split; try done.
    rewrite Hfl. destruct (faults (sink fd w)); [done|]. by inversion Hrel.
  - destruct Hr as [_ Hfl]. rewrite Hfl in Hrel. by inversion Hrel.
Qed.

(** Without faults the loop forwards every line of the pipe, in order. *)
Lemma forward_lines_all i prefix fd : ∀ ls n w,
  pipes w !! i = Some (mkPipe (Line <$> ls) false) →
  Forall (λ l, l ≠ "") ls →
  reliable (sink fd w) →
  length ls < n →
  ∃ w',
    forward_lines n i prefix fd w = (Return (), w') ∧
    received (sink fd w') = received (sink fd w) ++ flat_map (labelled prefix) ls ∧
    pipes w' !! i = Some (mkPipe [] false).
Proof.
  induction ls as [|l ls IH]; intros n w Hp Hne Hrel Hn;
    (destruct n as [|n]; [simpl in Hn; lia|]); rewrite forward_lines_S;
    unfold readline; rewrite Hp; simpl.
  - exists w. by rewrite app_nil_r.
  - inversion_clear Hne as [|?? Hl Hls]. rewrite decide_False by done.
    set (w1 := set_pipes _ w).
    assert (Hp1 : pipes w1 !! i = Some (mkPipe (Line <$> ls) false)).
    { apply list_lookup_insert_eq. by eapply lookup_lt_Some. }
    unfold write, flush.
    destruct (sink_call_reliable fd (Write ("[" +:+ prefix +:+ "] " +:+ l)) w1)
      as (w2 & -> & Hp2 & Hr2 & Hrel2); [by destruct fd|].
    destruct (sink_call_reliable fd Flush w2) as (w3 & -> & Hp3 & Hr3 & Hrel3); [done|].
    destruct (IH n w3) as (w' & -> & Hr & Hp'); [congruence|done|done|simpl in Hn; lia|].
    exists w'. split; [done|]. split; [|done].
    rewrite Hr, Hr3, Hr2, <- !app_assoc. by destruct fd.
Qed.

(** Without faults the task forwards every line and returns. *)
Lemma stream_output_all stream prefix target_stream w ls :
  pipes w !! stream = Some (mkPipe (Line <$> ls) false) →
  Forall (λ l, l ≠ "") ls →
  reliable (sink target_stream w) →
  ∃ w',
    _stream_output stream prefix target_stream w = (Return (), w') ∧
    received (sink target_stream w') =
      received (sink target_stream w) ++ flat_map (labelled prefix) ls.
Proof.
  intros Hp Hne Hrel. rewrite stream_output_unfold.
  destruct (forward_lines_all stream prefix target_stream ls
              (S (pending stream w)) w Hp Hne Hrel) as (w1 & -> & Hr & _).
  { unfold pending. rewrite Hp. simpl. rewrite length_fmap. lia. }
  destruct (close_inv stream w1) as (w' & -> & _ & _ & _ & Hs).
  exists w'. split; [done|]. by rewrite Hs, Hr.
Qed.

(** C6: when the pipe delivers the lines [ls] and no call on the target
    fails, the forwarding task started by [__enter__] returns after it has
    added to the target, for each line in order, one write of the line
    behind the label "[SERVER] " and one flush, and nothing else. *)
Theorem stream_output_forwards_lines stream target_stream w ls :
  pipes w !! stream = Some (mkPipe (Line <$> ls) false) →
  Forall (λ l, l ≠ "") ls →
  reliable (sink target_stream w) →
  ∃ w',
    _stream_output stream "SERVER" target_stream w = (Return (), w') ∧
    received (sink target_stream w') =
      received (sink target_stream w) ++
      flat_map (λ l, [Write ("[SERVER] " +:+ l); Flush]) ls.
Proof.
  intros Hp Hne Hrel.
  by apply (stream_output_all stream "SERVER" target_stream w ls).
Qed.



(** C8: [__exit__] on an object whose process handle is [None] returns at
    once and changes neither the world nor the object. *)
Theorem exit_without_start w self :
  process self = None → __exit__ (w, self) = (Return (), (w, self)).
Proof. intros Hp. unfold __exit__. run. simpl. by rewrite Hp. Qed.

Lemma exit_without_start_witness :
  process (__init__ default_port default_host) = None ∧
  __exit__ (fresh (λ _, refused) obedient, __init__ default_port default_host)
    = (Return (), (fresh (λ _, refused) obedient, __init__ default_port default_host)).
Proof.
  split; [reflexivity|].
  apply (exit_without_start (fresh (λ _, refused) obedient)
           (__init__ default_port default_host)).
  reflexivity.
Defined.

Lemma exit_stops_child_witness :
  ∃ w',
    __exit__ ((started stubborn).1, (started stubborn).2)
      = (Return (), (w', (started stubborn).2)) ∧
    alive w' 0 = false ∧
    ∃ d rc,
      trace w' = trace (started stubborn).1 ++
        [(clock (started stubborn).1, EvTerminate 0);
         (clock (started stubborn).1, EvWait 0 (Some 5000%N) None);
         ((clock (started stubborn).1 + 5000)%N, EvKill 0);
         ((clock (started stubborn).1 + 5000)%N, EvWait 0 None (Some rc));
         (d, EvSleep 500)] ∧
      clock w' = (d + 500)%N.
Proof.
  destruct (exit_stops_child (started stubborn).1 (started stubborn).2 (mkPopen 0 0 1)
              (mkProc ["python"; "-m"; "openhands.agent_server"; "--port"; "8001";
                       "--host"; "127.0.0.1"]
                      {[ "LOG_JSON" := "true" ]} stubborn None))
    as (w' & Hrun & Halive & [(d & rc & Hend & _)|(_ & d & rc & _ & _ & Htr & Hc)]).
  - vm_compute. reflexivity.
  - vm_compute. reflexivity.
  - discriminate Hend.
  - exists w'. split; [exact Hrun|]. split; [exact Halive|].
    exists d, rc. split; [exact Htr|exact Hc].
Defined.

Lemma stream_output_forwards_lines_witness :
  ∃ w',
    _stream_output 0 "SERVER" Stdout (started chatty).1 = (Return (), w') ∧
    received (sink Stdout w') =
      received (sink Stdout (started chatty).1) ++
      [Write ("[SERVER] starting" +:+ nl); Flush;
       Write ("[SERVER] listening" +:+ nl); Flush].
Proof.
  apply (stream_output_forwards_lines 0 Stdout (started chatty).1
           ["starting" +:+ nl; "listening" +:+ nl]).
  - vm_compute. reflexivity.
  - repeat constructor; discriminate.
  - vm_compute. constructor.
Defined.

Lemma stream_output_closes_source_witness :
  ∃ r w' p',
    _stream_output 0 "SERVER" Stdout (started garbled).1 = (r, w') ∧
    r ≠ Block ∧ (reliable (sys_stderr (started garbled).1) → r = Return ()) ∧
    pipes w' !! 0 = Some p' ∧ closed p' = true.
Proof.
  eapply (stream_output_closes_source 0 "SERVER" Stdout (started garbled).1).
  vm_compute. reflexivity.
Defined.

(** A read fault on stdout: the task logs it, returns, and has closed the
    pipe; the line read before the fault was forwarded. *)
Example stream_output_read_fault :
  let '(r, w') := _stream_output 0 "SERVER" Stdout (started garbled).1 in
  r = Return () ∧
  received (sys_stderr w') = [Print "转发 SERVER 输出时出错: invalid start byte"] ∧
  last (received (sys_stdout w')) = Some Flush ∧
  pipes w' !! 0 = Some (mkPipe [] true).
Proof. vm_compute. done. Qed.

(** ** The command line and the environment of the child *)

Lemma launch_env_spec (inherited : gmap string string) :
  (∀ k v, inherited !! k = Some v →
          dict_merge {[ "LOG_JSON" := "true" ]} inherited !! k = Some v) ∧
  (inherited !! "LOG_JSON" = None →
   dict_merge {[ "LOG_JSON" := "true" ]} inherited !! "LOG_JSON" = Some "true") ∧
  (∀ k, k ≠ "LOG_JSON" →
        dict_merge {[ "LOG_JSON" := "true" ]} inherited !! k = inherited !! k).
Proof.
  unfold dict_merge. repeat split.
  - intros k v Hk. by apply lookup_union_Some_l.
  - intros Hk. rewrite lookup_union_r by done. apply lookup_singleton_eq.
  - intros k Hk. destruct (inherited !! k) as [v|] eqn:Hv.
    + by apply lookup_union_Some_l.
    + rewrite lookup_union_r by done. by apply lookup_singleton_ne.
Qed.

(** C9, as the code has it: the first system call of [__enter__] is the
    call of [Popen] that launches the child, with the port (in decimal) and
    the host on its command line, and with the
    environment of the parent, to which [LOG_JSON=true] is added when the
    parent does not define [LOG_JSON]; a value the parent defines is kept.
    Nothing else enters the environment: the constructor takes a port and a
    host only. *)
Theorem enter_spawns_child w port host :
  ∃ r w' self' p env evs,
    __enter__ (w, __init__ port host) = (r, (w', self')) ∧
    trace w' = trace w ++
      (clock w, EvPopen p ["python"; "-m"; "openhands.agent_server";
                           "--port"; pretty port; "--host"; host] env) :: evs ∧
    env = dict_merge {[ "LOG_JSON" := "true" ]} (environ w) ∧
    (∀ k v, environ w !! k = Some v → env !! k = Some v) ∧
    (environ w !! "LOG_JSON" = None → env !! "LOG_JSON" = Some "true") ∧
    (∀ k, k ≠ "LOG_JSON" → env !! k = environ w !! k).
Proof.
  destruct (launch_env_spec (environ w)) as (Hkeep & Hflag & Hrest).
  destruct (launch_fault w (length (procs w))) as [msg|] eqn:Hfault.
  { rewrite (enter_not_launched w port host msg Hfault).
    eexists _, _, _, _, _, []. split; [reflexivity|]. split; [reflexivity|].
    split; [reflexivity|]. done. }
  rewrite enter_unfold by done.
  destruct (launched_process w port host) as (p & Hp & Hpid).
  assert (Htr1 : ∃ p0 evs1,
    trace (launched w port host).1 = trace w ++
      (clock w, EvPopen p0 ["python"; "-m"; "openhands.agent_server";
                            "--port"; pretty port; "--host"; host]
                  (dict_merge {[ "LOG_JSON" := "true" ]} (environ w))) :: evs1).
  { eexists _, _. reflexivity. }
  destruct Htr1 as (p0 & evs1 & Htr1).
  destruct (launched w port host) as [w1 self1]. simpl in *.
  destruct (wait_until_ready_post max_retries self1 p w1 Hp)
    as (r & w' & evs & -> & _ & _ & Htr & _).
  exists (match r with
          | Return (Some s) => Return s
          | Return None => Raise (not_started max_retries)
          | Raise e => Raise e
          | Block => Block
          end), w', self1, p0,
         (dict_merge {[ "LOG_JSON" := "true" ]} (environ w)), (evs1 ++ evs).
  split; [by destruct r as [[s|]|e|]|].
  split; [by rewrite Htr, Htr1, <- app_assoc|].
  split; [reflexivity|]. done.
Qed.

(** C9, as stated, fails: overrides of the caller do not reach the child. *)
Lemma enter_takes_no_overrides :
  ¬ (∀ (overrides : gmap string string) w port host,
       trace w = [] →
       spawn_env (trace (__enter__ (w, __init__ port host)).2.1)
         = Some (spec_launch_env (environ w) overrides)).
Proof.
  intros H.
  specialize (H {[ "FOO" := "bar" ]} (fresh (λ _, ready) obedient)
                8001%Z default_host eq_refl).
  apply (f_equal (λ o, o ≫= (.!! "FOO"))) in H.
  vm_compute in H. discriminate H.
Qed.

(** * Further properties *)

Lemma undisturbed_refl w : undisturbed w w.
Proof. by repeat split. Qed.

Lemma undisturbed_trans w1 w2 w3 :
  undisturbed w1 w2 → undisturbed w2 w3 → undisturbed w1 w3.
Proof. unfold undisturbed. intros H1 H2. destruct_and!. repeat split; congruence. Qed.

Lemma httpx_get_undisturbed url timeout w :
  undisturbed w (httpx_get url timeout w).2.
Proof.
  unfold httpx_get. destruct (response _); by repeat split.
Qed.

Lemma poll_undisturbed p w : undisturbed w (poll p w).2.
Proof. by repeat split. Qed.

Lemma sleep_undisturbed d w : undisturbed w (sleep d w).2.
Proof. by repeat split. Qed.

Lemma print_stdout_undisturbed text w : undisturbed w (print Stdout text w).2.
Proof. by repeat split. Qed.

Lemma request_time_one w : request_time w 1 = took (net w (requests w)).
Proof.
  change (request_time w 1) with (0 + took (net w (requests w + 0)))%N.
  rewrite Nat.add_0_r. lia.
Qed.

Lemma polled_after_check n self p w0 w url resp :
  (∀ w1, polled (base_url self +:+ "/health") (pid p) n w1
           (wait_until_ready n (w1, self)).2.1) →
  url = base_url self +:+ "/health" →
  undisturbed w0 w →
  trace w = trace w0 ++ [(clock w0, EvGet url 1000 resp)] →
  clock w = (clock w0 + took (net w0 (requests w0)))%N →
  requests w = S (requests w0) →
  net w = net w0 →
  polled url (pid p) (S n) w0 (after_check n self p w).2.1.
Proof.
  intros IH -> Hu Htrace Hclock Hreq Hnet. unfold after_check.
  destruct (poll_inv p w) as (w2 & Hpoll & Htr2 & Hc2 & _ & Hr2 & Hn2).
  pose proof (poll_undisturbed p w) as Hu2. rewrite Hpoll in *. simpl in Hu2.
  destruct (returncode w (pid p)) as [rc|] eqn:Hrc; cbv beta iota.
  - simpl. split; [by eapply undisturbed_trans|]. split; [congruence|].
    eexists [_; _]. split; [by rewrite Htr2, Htrace, <- app_assoc|].
    split; [by repeat constructor|]. simpl gets_in. simpl slept.
    rewrite request_time_one. repeat split; lia.
  - destruct (sleep_inv 1000 w2) as (w3 & Hsl & Htr3 & Hc3 & _ & Hr3 & Hn3).
    pose proof (sleep_undisturbed 1000 w2) as Hu3. rewrite Hsl in *. simpl in Hu3.
    change (Return (), w3).2 with w3.
    destruct (IH w3) as (Hu4 & Hn4 & evs & Htr4 & Hev & Hg & Hr4 & Hs4 & Hc4).
    assert (Hshift : request_time w0 (S (gets_in evs)) =
                     (took (net w0 (requests w0)) + request_time w3 (gets_in evs))%N).
    { apply request_time_shift; congruence. }
    split.
    { eapply undisturbed_trans; [exact Hu|]. eapply undisturbed_trans; [exact Hu2|].
      eapply undisturbed_trans; [exact Hu3|exact Hu4]. }
    split; [congruence|].
    exists ([(clock w0, EvGet (base_url self +:+ "/health") 1000 resp);
             (clock w, EvPoll (pid p) None); (clock w2, EvSleep 1000)] ++ evs).
    split; [by rewrite Htr4, Htr3, Htr2, Htrace, <- !app_assoc|].
    split; [by repeat constructor|].
    rewrite gets_in_app, slept_app. simpl gets_in. simpl slept.
    change (1 + gets_in evs) with (S (gets_in evs)). rewrite Hshift.
    repeat split; lia.
Qed.

(** The loop stays within its budget: [n] requests and [n] sleeps; the time
    it takes is the time it sleeps and the time its requests take; and it
    disturbs nothing else. *)
Lemma wait_until_ready_polled n : ∀ self p w,
  process self = Some p →
  polled (base_url self +:+ "/health") (pid p) n w (wait_until_ready n (w, self)).2.1.
Proof.
  induction n as [|n IH]; intros self p w Hp.
  - unfold wait_until_ready. simpl. split; [apply undisturbed_refl|]. split; [done|].
    exists []. rewrite app_nil_r. change (request_time w (gets_in [])) with 0%N. simpl.
    repeat split; try done; lia.
  - rewrite (wait_until_ready_S n w self p Hp).
    destruct (httpx_get_inv (base_url self +:+ "/health") 1000 w)
      as (w1 & Hget & Htr1 & _ & Hc1 & _ & Hr1 & Hn1).
    pose proof (httpx_get_undisturbed (base_url self +:+ "/health") 1000 w) as Hu1.
    rewrite Hget in *. simpl in Hu1.
    assert (Hfail : polled (base_url self +:+ "/health") (pid p) (S n) w
                      (after_check n self p w1).2.1).
    { eapply polled_after_check; eauto. }
    destruct (response (net w (requests w))) as [c|e]; [|done].
    destruct (decide (c = 200%Z)) as [->|]; [|done].
    split; [by eapply undisturbed_trans; [|apply print_stdout_undisturbed]|].
    split; [done|]. eexists [_]. split; [done|].
    split; [by repeat constructor|]. simpl gets_in. simpl slept.
    rewrite request_time_one. simpl. repeat split; lia.
Qed.

Section preserves.
Context {S : Type} (R : S → S → Prop) `{!Reflexive R, !Transitive R}.

Lemma preserves_ret {A} (a : A) : preserves R (mret a).
Proof. intros s. simpl. reflexivity. Qed.

Lemma preserves_gets {A} (f : S → A) : preserves R (gets f).
Proof. intros s. simpl. reflexivity. Qed.

Lemma preserves_bind {A B} (m : M S A) (k : A → M S B) :
  preserves R m → (∀ a, preserves R (k a)) → preserves R (m ≫= k).
Proof.
  intros Hm Hk s. specialize (Hm s). run.
  destruct (m s) as [[a|e|] s1]; simpl in *; [|done..].
  by etrans; [|apply Hk].
Qed.

Lemma preserves_try_except {A} (body : M S A) catches handler :
  preserves R body → (∀ e, preserves R (handler e)) →
  preserves R (try_except body catches handler).
Proof.
  intros Hm Hk s. specialize (Hm s). unfold try_except.
  destruct (body s) as [[a|e|] s1]; simpl in *; [done| |done].
  destruct (catches e); [|done]. by etrans; [|apply Hk].
Qed.
End preserves.

#[global] Instance on_world_refl R `{!Reflexive R} : Reflexive (on_world R).
Proof. intros [w s]. by split. Qed.

#[global] Instance on_world_trans R `{!Transitive R} : Transitive (on_world R).
Proof.
  intros [w1 s1] [w2 s2] [w3 s3] [H1 E1] [H2 E2]. simpl in *.
  split; [by etrans|]. simpl. congruence.
Qed.

Lemma preserves_sys {A} R (m : M World A) :
  preserves R m → preserves (on_world R) (sys m).
Proof.
  intros Hm [w s]. specialize (Hm w). unfold sys.
  by destruct (m w) as [r w1].
Qed.

#[global] Instance stopped_refl q : Reflexive (stopped q).
Proof.
  intros w. repeat split; try done. exists []. by rewrite app_nil_r.
Qed.

#[global] Instance stopped_trans q : Transitive (stopped q).
Proof.
  intros w1 w2 w3 (Hl1 & Ho1 & ? & ? & ? & ? & ? & ? & Hc1 & evs1 & Ht1 & He1)
                  (Hl2 & Ho2 & ? & ? & ? & ? & ? & ? & Hc2 & evs2 & Ht2 & He2).
  repeat split; try congruence; try lia.
  - intros i Hi. rewrite Ho2, Ho1; done.
  - exists (evs1 ++ evs2). split; [by rewrite Ht2, Ht1, app_assoc|].
    by apply Forall_app.
Qed.

Lemma stopped_print text q : preserves (stopped q) (print Stdout text).
Proof. intros w. repeat split; try done. exists []. by rewrite app_nil_r. Qed.

Lemma stopped_emit q ev : acts_on q ev → preserves (stopped q) (emit ev).
Proof.
  intros Hev w. repeat split; try done. eexists [_]. split; [done|]. by constructor.
Qed.

Lemma stopped_signal p effect : preserves (stopped p) (signal p effect).
Proof.
  intros w. unfold signal. run. simpl.
  destruct (procs w !! p) as [pr|] eqn:Hpr; [|reflexivity].
  destruct (effect (behaviour pr)) as [[d rc]|]; [|reflexivity].
  repeat split; simpl; try done.
  - by rewrite length_insert.
  - intros i Hi. by rewrite list_lookup_insert_ne.
  - exists []. by rewrite app_nil_r.
Qed.

Lemma stopped_terminate p : preserves (stopped (pid p)) (terminate p).
Proof.
  apply preserves_bind; [apply _..| |intros _; apply stopped_signal].
  by apply stopped_emit.
Qed.

Lemma stopped_kill p : preserves (stopped (pid p)) (kill p).
Proof.
  apply preserves_bind; [apply _..| |intros _; apply stopped_signal].
  by apply stopped_emit.
Qed.

Lemma stopped_sleep q : preserves (stopped q) (sleep 500).
Proof.
  intros w. repeat split; simpl; try done; try lia.
  eexists [_]. split; [done|]. by constructor.
Qed.

Lemma stopped_wait p timeout : preserves (stopped (pid p)) (wait p timeout).
Proof.
  intros w. unfold wait.
  assert (Hev : ∀ rc, Forall (λ ev, acts_on (pid p) ev.2)
                        [(clock w, EvWait (pid p) timeout rc)]) by (by repeat constructor).
  destruct (match procs w !! pid p with Some pr => death pr | None => None end)
    as [[d rc]|]; destruct timeout as [t|]; try destruct (d <=? clock w + t)%N;
    repeat split; simpl; try done; try lia; by eexists [_].
Qed.

(** X5: [__exit__] leaves the object as it is, keeps the process handle, and
    acts on no child but the one of the handle: the records of all other
    children, the pipes, the threads, [sys.stderr] and the environment are
    unchanged, and every call it makes is a signal to or a wait for that
    child, or the settle sleep. *)
Theorem exit_acts_on_own_child_only w self p :
  process self = Some p →
  on_world (stopped (pid p)) (w, self) (__exit__ (w, self)).2.
Proof.
  intros Hp. revert w self Hp.
  assert (H : ∀ self, process self = Some p →
                preserves (on_world (stopped (pid p)))
                  (match process self with
                   | Some p =>
                     sys (print Stdout "正在停止 API 服务器……");;
                     sys (terminate p);;
                     try_except
                       (sys (wait p (Some 5000%N));; mret ())
                       is_TimeoutExpired
                       (λ _,
                         sys (print Stdout "终止超时，正在强制杀死 API 服务器……");;
                         sys (kill p);;
                         sys (wait p None);;
                         mret ());;
                     sys (sleep 500);;
                     sys (print Stdout "API 服务器已停止。")
                   | None => mret ()
                   end)).
  { intros self ->.
    repeat first
      [ apply stopped_print | apply stopped_terminate | apply stopped_kill
      | apply stopped_wait | apply stopped_sleep | apply preserves_sys
      | apply preserves_ret; apply _
      | apply preserves_try_except; [apply _..| |]
      | apply preserves_bind; [apply _..| |]
      | intros ? ]. }
  intros w self Hp. specialize (H self Hp (w, self)).
  unfold __exit__. run. simpl. exact H.
Qed.

(** ** What [__enter__] does on every path *)

(** Once the child is launched, [__enter__] is at most [max_retries] rounds
    of the loop, and it never blocks. *)
Lemma enter_frame w port host :
  launch_fault w (length (procs w)) = None →
  ∃ r w',
    __enter__ (w, __init__ port host) = (r, (w', (launched w port host).2)) ∧
    r ≠ Block ∧
    polled (base_url (__init__ port host) +:+ "/health") (length (procs w)) max_retries
      (launched w port host).1 w' ∧
    (clock (launched w port host).1 ≤ clock w')%N.
Proof.
  intros Hfault. rewrite enter_unfold by done.
  destruct (launched_process w port host) as (p & Hp & Hpid).
  assert (Hurl : base_url (launched w port host).2 = base_url (__init__ port host))
    by reflexivity.
  destruct (launched w port host) as [w1 self1] eqn:Hl. simpl in *.
  pose proof (wait_until_ready_polled max_retries self1 p w1 Hp) as Hpolled.
  destruct (wait_until_ready_post max_retries self1 p w1 Hp)
    as (r & w' & evs & Hrun & _ & _ & _ & Hc & _ & Hr).
  rewrite Hrun in *. simpl in Hpolled. rewrite Hurl, Hpid in Hpolled.
  assert (Hclock : (clock w1 ≤ clock w')%N) by lia.
  destruct r as [[s|]|e|]; [| | |done]; eexists _, w'; (split; [reflexivity|]); done.
Qed.

(** An [__enter__] that returns has launched the child. *)
Lemma enter_returned_launched w port host s st :
  __enter__ (w, __init__ port host) = (Return s, st) →
  launch_fault w (length (procs w)) = None.
Proof.
  destruct (launch_fault w (length (procs w))) as [msg|] eqn:Hfault; [|done].
  by rewrite (enter_not_launched w port host msg Hfault).
Qed.

Lemma httpx_get_ok url timeout w c :
  response (net w (requests w)) = Status c →
  ∃ w',
    httpx_get url timeout w = (Return c, w') ∧
    trace w' = trace w ++ [(clock w, EvGet url timeout (Status c))] ∧
    clock w' = (clock w + took (net w (requests w)))%N ∧
    requests w' = S (requests w) ∧ net w' = net w ∧ procs w' = procs w.
Proof.
  intros Hr. unfold httpx_get. rewrite Hr. eexists. split; [reflexivity|]. done.
Qed.

(** The [k]-th request is the first one answered 200, and the child is
    still running at the polls before it: the loop returns at that request. *)
Lemma wait_until_ready_succeeds k : ∀ n self p w,
  process self = Some p →
  k < n →
  (∀ i, i < k → response (net w (requests w + i)) ≠ Status 200) →
  response (net w (requests w + k)) = Status 200 →
  (∀ d rc, end_of w (pid p) = Some (d, rc) → 0 < k →
           (clock w + 1000 * N.of_nat k + request_time w k ≤ d)%N) →
  ∃ w' evs,
    wait_until_ready n (w, self) = (Return (Some self), (w', self)) ∧
    trace w' = trace w ++ evs ∧
    slept evs = (1000 * N.of_nat k)%N ∧
    gets_in evs = S k.
Proof.
  induction k as [|k IH]; intros n self p w Hp Hn Hbad Hgood Hlive;
    (destruct n as [|n]; [lia|]).
  - rewrite (wait_until_ready_S n w self p Hp). rewrite Nat.add_0_r in *.
    destruct (httpx_get_ok (base_url self +:+ "/health") 1000 w 200 Hgood)
      as (w1 & -> & Htr & _).
    rewrite decide_True by done. eexists _, [_]. split; [reflexivity|].
    split; [exact Htr|]. done.
  - destruct (wait_until_ready_unhealthy n w self p Hp) as
      (w1 & -> & Htr1 & _ & Hc1 & Hp1 & Hr1 & Hn1).
    { specialize (Hbad 0). rewrite Nat.add_0_r in Hbad. apply Hbad. lia. }
    unfold after_check.
    destruct (poll_inv p w1) as (w2 & -> & Htr2 & Hc2 & Hp2 & Hr2 & Hn2).
    destruct (sleep_inv 1000 w2) as (w3 & Hsl & Htr3 & Hc3 & Hp3 & Hr3 & Hn3).
    assert (Hreq : requests w3 = S (requests w)) by congruence.
    assert (Hnet : net w3 = net w) by congruence.
    assert (Hshift : request_time w (S k) =
                     (took (net w (requests w)) + request_time w3 k)%N).
    { by apply request_time_shift. }
    assert (Hrc : returncode w1 (pid p) = None).
    { apply returncode_running. intros d rc Hd.
      rewrite (end_of_frame w) in Hd by done. specialize (Hlive d rc Hd). lia. }
    rewrite Hrc in *.
    rewrite Hsl. change (Return (), w3).2 with w3.
    assert (Hidx : ∀ i, S (requests w) + i = requests w + S i) by (intros; lia).
    destruct (IH n self p w3) as (w' & evs & -> & Htr & Hs & Hg); [done|lia| | | |].
    + intros i Hi. rewrite Hnet, Hreq, Hidx. apply Hbad. lia.
    + rewrite Hnet, Hreq, Hidx. exact Hgood.
    + intros d rc Hd Hk. rewrite (end_of_frame w) in Hd by congruence.
      specialize (Hlive d rc Hd). lia.
    + exists w', ([(clock w, EvGet (base_url self +:+ "/health") 1000
                              (response (net w (requests w))));
                   (clock w1, EvPoll (pid p) None); (clock w2, EvSleep 1000)] ++ evs).
      split; [done|]. rewrite Htr, Htr3, Htr2, Htr1, <- !app_assoc.
      split; [done|]. rewrite slept_app, gets_in_app, Hs, Hg. simpl. split; lia.
Qed.

(** X1: [__enter__] always ends, by a return or by a raise, within its
    budget of 30 requests, each one a GET of [base_url + "/health"] with a
    timeout of one second, and of 30 seconds of sleep.  The time it takes is
    the time it sleeps and the time its requests take. *)
Theorem enter_stays_in_budget w port host :
  ∃ r w' self' evs,
    __enter__ (w, __init__ port host) = (r, (w', self')) ∧
    r ≠ Block ∧
    trace w' = trace w ++ evs ∧
    (gets_in evs ≤ 30)%nat ∧
    (slept evs ≤ 30 * 1000)%N ∧
    clock w' = (clock w + slept evs + request_time w (gets_in evs))%N ∧
    (∀ t0 u tm resp,
       (t0, EvGet u tm resp) ∈ evs →
       u = ("http://" +:+ host +:+ ":" +:+ pretty port) +:+ "/health" ∧ tm = 1000%N).
Proof.
  destruct (launch_fault w (length (procs w))) as [msg|] eqn:Hfault.
  { rewrite (enter_not_launched w port host msg Hfault).
    eexists _, _, _, [_]. split; [reflexivity|]. split; [done|]. split; [reflexivity|].
    change (request_time w _) with 0%N. simpl.
    split; [lia|]. split; [lia|]. split; [lia|].
    intros t0 u tm resp Hin. apply elem_of_cons in Hin as [Hin|Hin]; [done|].
    by apply elem_of_nil in Hin. }
  destruct (enter_frame w port host Hfault)
    as (r & w' & Hrun & Hb & (_ & _ & evs & Htr & Hev & Hg & _ & Hs & Hc) & _).
  destruct (launched_frame w port host) as (pr & _ & Hc1 & _).
  pose proof (launched_request_time w port host (gets_in evs)) as Hrt.
  assert (Hl : ∃ evs1, trace (launched w port host).1 = trace w ++ evs1 ∧
                 gets_in evs1 = 0 ∧ slept evs1 = 0%N ∧
                 ∀ t0 u tm resp, (t0, EvGet u tm resp) ∉ evs1).
  { eexists. split; [reflexivity|]. split; [done|]. split; [done|].
    intros t0 u tm resp Hin.
    repeat (apply elem_of_cons in Hin as [Hin|Hin]; [done|]). by apply elem_of_nil in Hin. }
  destruct Hl as (evs1 & Htr1 & Hg1 & Hs1 & Hno).
  exists r, w', (launched w port host).2, (evs1 ++ evs).
  split; [done|]. split; [done|].
  split; [by rewrite Htr, Htr1, <- app_assoc|].
  rewrite gets_in_app, slept_app, Hg1, Hs1. unfold max_retries in *.
  split; [lia|]. split; [lia|]. split; [simpl; lia|].
  intros t0 u tm resp Hin. apply elem_of_app in Hin as [Hin|Hin]; [by apply Hno in Hin|].
  rewrite Forall_forall in Hev. exact (Hev _ Hin).
Qed.


(** X3: when the child is launched, the [k]-th request ([k < 30], counted
    from 0) is the first one answered 200, and the child does not end by
    itself before the [k] sleeps of a second and the [k] requests before
    that one are over, [__enter__] returns the object after [k + 1] requests
    and exactly [k] sleeps of one second. *)
Theorem enter_succeeds_at w port host k :
  k < 30 →
  launch_fault w (length (procs w)) = None →
  (∀ i, i < k → response (net w (requests w + i)) ≠ Status 200) →
  response (net w (requests w + k)) = Status 200 →
  (∀ d rc, lifetime (spawns w (length (procs w))) = Some (d, rc) →
           (1000 * N.of_nat k + request_time w k ≤ d)%N) →
  ∃ w' self' evs,
    __enter__ (w, __init__ port host) = (Return self', (w', self')) ∧
    trace w' = trace w ++ evs ∧
    slept evs = (1000 * N.of_nat k)%N ∧
    gets_in evs = S k.
Proof.
  intros Hk Hfault Hbad Hgood Hlive. rewrite enter_unfold by done.
  destruct (launched_process w port host) as (p & Hp & Hpid).
  destruct (launched_frame w port host) as (pr & _ & Hc1 & Hn1 & _).
  destruct (launched_gets w port host) as (evs1 & Htr1 & Hg1 & Hs1).
  pose proof (launched_end_of w port host) as Hend.
  pose proof (launched_request_time w port host k) as Hrt.
  assert (Hreq : requests (launched w port host).1 = requests w) by reflexivity.
  destruct (launched w port host) as [w1 self1]. simpl in *.
  destruct (wait_until_ready_succeeds k max_retries self1 p w1 Hp)
    as (w' & evs & -> & Htr & Hs & Hg); rewrite ?Hn1, ?Hreq; try done.
  - intros d rc Hd _. rewrite Hpid, Hend in Hd.
    destruct (lifetime _) as [[d0 rc0]|]; [|done]. injection Hd as <- <-.
    specialize (Hlive d0 rc0 eq_refl). rewrite Hrt, Hc1. lia.
  - exists w', self1, (evs1 ++ evs). split; [done|].
    split; [by rewrite Htr, Htr1, <- app_assoc|].
    rewrite slept_app, gets_in_app, Hs1, Hg1, Hs, Hg. split; [lia|done].
Qed.

Lemma enter_succeeds_at_witness :
  ∃ w' self' evs,
    __enter__ (fresh (λ i, if decide (i = 1) then ready else refused) stubborn,
               __init__ 8001 default_host) = (Return self', (w', self')) ∧
    trace w' = [] ++ evs ∧
    slept evs = (1000 * N.of_nat 1)%N ∧
    gets_in evs = 2.
Proof.
  apply (enter_succeeds_at
           (fresh (λ i, if decide (i = 1) then ready else refused) stubborn)
           8001 default_host 1).
  - lia.
  - reflexivity.
  - intros i Hi. assert (i = 0) as -> by lia. simpl. discriminate.
  - reflexivity.
  - intros d rc. simpl. discriminate.
Defined.

(** X4: the health endpoint alone decides.  When the child is launched and
    the first request is answered 200, however long the answer takes,
    [__enter__] returns the object after that one request, without a poll
    and without a sleep, whatever has become of the child. *)
Theorem enter_trusts_endpoint w port host :
  launch_fault w (length (procs w)) = None →
  response (net w (requests w)) = Status 200 →
  ∃ w' self' p env out err,
    __enter__ (w, __init__ port host) = (Return self', (w', self')) ∧
    process self' = Some p ∧
    trace w' = trace w ++
      [(clock w, EvPopen p ["python"; "-m"; "openhands.agent_server";
                            "--port"; pretty port; "--host"; host] env);
       (clock w, EvThreadStart out);
       (clock w, EvThreadStart err);
       (clock w,
        EvGet (("http://" +:+ host +:+ ":" +:+ pretty port) +:+ "/health") 1000
              (Status 200))] ∧
    clock w' = (clock w + took (net w (requests w)))%N.
Proof.
  intros Hfault Hgood. rewrite enter_unfold by done. change max_retries with (S 29).
  destruct (launched_process w port host) as (p & Hp & Hpid).
  assert (Hl : ∃ env out err,
    trace (launched w port host).1 = trace w ++
      [(clock w, EvPopen p ["python"; "-m"; "openhands.agent_server";
                            "--port"; pretty port; "--host"; host] env);
       (clock w, EvThreadStart out); (clock w, EvThreadStart err)]).
  { injection Hp as <-. by eexists _, _, _. }
  destruct Hl as (env & out & err & Htr1).
  assert (Hurl : base_url (launched w port host).2 =
                 "http://" +:+ host +:+ ":" +:+ pretty port) by reflexivity.
  assert (Hc1 : clock (launched w port host).1 = clock w) by reflexivity.
  assert (Hreq : requests (launched w port host).1 = requests w) by reflexivity.
  assert (Hnet : net (launched w port host).1 = net w) by reflexivity.
  destruct (launched w port host) as [w1 self1]. simpl in *.
  rewrite (wait_until_ready_S 29 w1 self1 p Hp).
  rewrite <- Hnet, <- Hreq in Hgood.
  destruct (httpx_get_ok (base_url self1 +:+ "/health") 1000 w1 200 Hgood)
    as (w2 & -> & Htr & Hc & _).
  rewrite decide_True by done.
  eexists _, self1, p, env, out, err. split; [reflexivity|]. split; [exact Hp|].
  simpl. rewrite Htr, Htr1, Hurl, Hc1, <- app_assoc.
  split; [reflexivity|]. rewrite Hc, Hc1, Hnet, Hreq. reflexivity.
Qed.

Lemma enter_trusts_endpoint_witness :
  ∃ w' self' p env out err,
    __enter__ (fresh (λ _, ready) stillborn, __init__ 8001 default_host)
      = (Return self', (w', self')) ∧
    process self' = Some p ∧
    trace w' = [] ++
      [(0%N, EvPopen p ["python"; "-m"; "openhands.agent_server";
                        "--port"; pretty 8001%Z; "--host"; default_host] env);
       (0%N, EvThreadStart out);
       (0%N, EvThreadStart err);
       (0%N,
        EvGet (("http://" +:+ default_host +:+ ":" +:+ pretty 8001%Z) +:+ "/health") 1000
              (Status 200))] ∧
    clock w' = (0 + 15)%N.
Proof.
  apply (enter_trusts_endpoint (fresh (λ _, ready) stillborn) 8001 default_host).
  - reflexivity.
  - reflexivity.
Defined.

(** The child of that run has crashed before [__enter__] returns its handle. *)
Example enter_returns_handle_of_dead_child :
  let '(r, (w', self')) :=
    __enter__ (fresh (λ _, ready) stillborn, __init__ 8001 default_host) in
  r = Return self' ∧ alive w' 0 = false.
Proof. vm_compute. done. Qed.

(** ** More on leaving the context *)

Lemma end_of_lookup w p pr : procs w !! p = Some pr → end_of w p = death pr.
Proof. unfold end_of. by intros ->. Qed.

Opaque terminate kill wait sleep print.

(** The child ends within the grace period. *)
Lemma exit_graceful w self p pr d rc :
  process self = Some p →
  procs w !! pid p = Some pr →
  after_sigterm pr (clock w) = Some (d, rc) →
  (d ≤ clock w + 5000)%N →
  ∃ w',
    __exit__ (w, self) = (Return (), (w', self)) ∧
    end_of w' (pid p) = Some (d, rc) ∧
    trace w' = trace w ++
      [(clock w, EvTerminate (pid p));
       (clock w, EvWait (pid p) (Some 5000%N) (Some rc));
       (N.max (clock w) d, EvSleep 500)] ∧
    clock w' = (N.max (clock w) d + 500)%N.
Proof.
  intros Hp Hpr Hend Hin. unfold __exit__. run. simpl. rewrite Hp.
  destruct (print_inv Stdout "正在停止 API 服务器……" w)
    as (w1 & -> & Htr1 & Hc1 & Hp1 & _).
  rewrite <- Hp1 in Hpr.
  destruct (terminate_inv p pr w1 Hpr) as (w2 & -> & Htr2 & Hc2 & Hpr2).
  rewrite Hc1 in *. set (pr2 := with_death pr _) in Hpr2.
  destruct (wait_ended p pr2 w2 (Some 5000%N) d rc Hpr2 Hend)
    as (w3 & -> & Htr3 & Hc3 & Hp3); [lia|].
  destruct (sleep_inv 500 w3) as (w4 & -> & Htr4 & Hc4 & Hp4 & _).
  destruct (print_inv Stdout "API 服务器已停止。" w4)
    as (w5 & -> & Htr5 & Hc5 & Hp5 & _).
  exists w5. split; [done|]. split.
  { rewrite (end_of_lookup w5 (pid p) pr2); [exact Hend|congruence]. }
  split; [|lia].
  rewrite Htr5, Htr4, Htr3, Htr2, Htr1, <- !app_assoc, Hc3, Hc2. done.
Qed.

(** The child outlasts the grace period. *)
Lemma exit_forced w self p pr :
  process self = Some p →
  procs w !! pid p = Some pr →
  (∀ d rc, after_sigterm pr (clock w) = Some (d, rc) → (clock w + 5000 < d)%N) →
  ∃ w' d rc,
    __exit__ (w, self) = (Return (), (w', self)) ∧
    end_of w' (pid p) = Some (d, rc) ∧
    (clock w + 5000 ≤ d)%N ∧ (d ≤ clock w + 5000 + on_sigkill (behaviour pr))%N ∧
    clock w' = (d + 500)%N.
Proof.
  intros Hp Hpr Hlate. unfold __exit__. run. simpl. rewrite Hp.
  destruct (print_inv Stdout "正在停止 API 服务器……" w)
    as (w1 & -> & Htr1 & Hc1 & Hp1 & _).
  rewrite <- Hp1 in Hpr.
  destruct (terminate_inv p pr w1 Hpr) as (w2 & -> & Htr2 & Hc2 & Hpr2).
  rewrite Hc1 in *. set (pr2 := with_death pr _) in Hpr2.
  destruct (wait_expired p pr2 w2 5000 Hpr2) as (w3 & -> & Htr3 & Hc3 & Hp3).
  { intros d rc Hd. specialize (Hlate d rc Hd). lia. }
  simpl.
  destruct (print_inv Stdout "终止超时，正在强制杀死 API 服务器……" w3)
    as (w4 & -> & Htr4 & Hc4 & Hp4 & _).
  rewrite <- Hp3, <- Hp4 in Hpr2.
  destruct (kill_inv p pr2 w4 Hpr2) as (w5 & -> & Htr5 & Hc5 & Hpr5).
  destruct (sooner_spec (death pr2) (clock w4 + on_sigkill (behaviour pr2)) (-9))
    as (d & rc & Hso & Hhi & Hlo & Hfrom).
  rewrite Hso in Hpr5. set (pr5 := with_death pr2 _) in Hpr5.
  assert (Hd : (clock w + 5000 ≤ d)%N).
  { destruct Hfrom as [->|[rc2 Hd2]]; [lia|].
    specialize (Hlate d rc2 Hd2). lia. }
  destruct (wait_ended p pr5 w5 None d rc Hpr5 eq_refl)
    as (w6 & -> & Htr6 & Hc6 & Hp6); [done|].
  destruct (sleep_inv 500 w6) as (w7 & -> & Htr7 & Hc7 & Hp7 & _).
  destruct (print_inv Stdout "API 服务器已停止。" w7)
    as (w8 & -> & Htr8 & Hc8 & Hp8 & _).
  exists w8, d, rc. split; [done|]. split.
  { rewrite (end_of_lookup w8 (pid p) pr5); [done|congruence]. }
  split; [done|]. split; [simpl in Hhi; lia|]. lia.
Qed.

Transparent terminate kill wait sleep print.

Lemma exit_cases (pr : Proc) (now : N) :
  (∃ d rc, after_sigterm pr now = Some (d, rc) ∧ (d ≤ now + 5000)%N) ∨
  (∀ d rc, after_sigterm pr now = Some (d, rc) → (now + 5000 < d)%N).
Proof.
  destruct (after_sigterm pr now) as [[d rc]|]; [|by right].
  destruct (N.le_gt_cases d (now + 5000)); [left; eauto|].
  right. by intros ?? [= <- <-].
Qed.

(** [__exit__] on a started child returns, and the child has ended half a
    second or more before. *)
Lemma exit_run w self p pr :
  process self = Some p →
  procs w !! pid p = Some pr →
  ∃ w' d rc,
    __exit__ (w, self) = (Return (), (w', self)) ∧
    end_of w' (pid p) = Some (d, rc) ∧ (d + 500 ≤ clock w')%N ∧
    (clock w + 500 ≤ clock w')%N ∧
    (clock w' ≤ clock w + 5000 + on_sigkill (behaviour pr) + 500)%N.
Proof.
  intros Hp Hpr. destruct (exit_cases pr (clock w)) as [(d & rc & Hend & Hin)|Hlate].
  - destruct (exit_graceful w self p pr d rc Hp Hpr Hend Hin) as (w' & ? & ? & _ & ?).
    exists w', d, rc. repeat split; try done; lia.
  - destruct (exit_forced w self p pr Hp Hpr Hlate) as (w' & d & rc & ? & ? & ? & ? & ?).
    exists w', d, rc. repeat split; try done; lia.
Qed.

Lemma after_sigterm_ended pr now d rc :
  death pr = Some (d, rc) → (d ≤ now)%N → after_sigterm pr now = Some (d, rc).
Proof.
  intros Hd Hle. unfold after_sigterm, sooner. rewrite Hd.
  destruct (on_sigterm (behaviour pr)) as [[dl rc']|]; [|done].
  destruct (N.leb_spec d (now + dl)); [done|lia].
Qed.

Lemma alive_end_of w p d rc : end_of w p = Some (d, rc) → (d ≤ clock w)%N → alive w p = false.
Proof.
  unfold end_of, alive. destruct (procs w !! p) as [pr|]; [|done].
  intros -> Hle. by apply N.ltb_ge.
Qed.

(** X6: stopping a child that has already ended (it crashed, or it was
    stopped before).  [__exit__] sends SIGTERM, its wait returns at once
    with the return code of the child, no SIGKILL is sent, and the call
    returns after exactly the settle sleep of half a second. *)
Theorem exit_of_ended_child w self p d rc :
  process self = Some p →
  end_of w (pid p) = Some (d, rc) →
  (d ≤ clock w)%N →
  ∃ w',
    __exit__ (w, self) = (Return (), (w', self)) ∧
    trace w' = trace w ++
      [(clock w, EvTerminate (pid p));
       (clock w, EvWait (pid p) (Some 5000%N) (Some rc));
       (clock w, EvSleep 500)] ∧
    clock w' = (clock w + 500)%N ∧
    end_of w' (pid p) = Some (d, rc).
Proof.
  intros Hp Hend Hd. unfold end_of in Hend.
  destruct (procs w !! pid p) as [pr|] eqn:Hpr; [|done].
  destruct (exit_graceful w self p pr d rc Hp Hpr) as (w' & Hrun & Hend' & Htr & Hc).
  { by apply after_sigterm_ended. }
  { lia. }
  exists w'. replace (N.max (clock w) d) with (clock w) in * by lia. done.
Qed.

Lemma exit_of_ended_child_witness :
  ∃ w',
    __exit__ (crash_run.2.1, crash_run.2.2) = (Return (), (w', crash_run.2.2)) ∧
    trace w' = trace crash_run.2.1 ++
      [(clock crash_run.2.1, EvTerminate 0);
       (clock crash_run.2.1, EvWait 0 (Some 5000%N) (Some 1%Z));
       (clock crash_run.2.1, EvSleep 500)] ∧
    clock w' = (clock crash_run.2.1 + 500)%N ∧
    end_of w' 0 = Some (300%N, 1%Z).
Proof.
  apply (exit_of_ended_child crash_run.2.1 crash_run.2.2 (mkPopen 0 0 1) 300 1).
  - vm_compute. reflexivity.
  - vm_compute. reflexivity.
  - vm_compute. discriminate.
Defined.

(** X7: [__exit__] can be repeated.  It does not clear the process handle, so
    a second call acts on the same child: it returns normally after the half
    second of settle sleep, having sent SIGTERM only, and the child stays
    ended. *)
Theorem exit_twice w self p pr :
  process self = Some p →
  procs w !! pid p = Some pr →
  ∃ w1 w2 rc,
    __exit__ (w, self) = (Return (), (w1, self)) ∧
    __exit__ (w1, self) = (Return (), (w2, self)) ∧
    trace w2 = trace w1 ++
      [(clock w1, EvTerminate (pid p));
       (clock w1, EvWait (pid p) (Some 5000%N) (Some rc));
       (clock w1, EvSleep 500)] ∧
    clock w2 = (clock w1 + 500)%N ∧
    alive w2 (pid p) = false.
Proof.
  intros Hp Hpr.
  destruct (exit_run w self p pr Hp Hpr) as (w1 & d & rc & Hrun1 & Hend1 & Hd1 & _).
  unfold end_of in Hend1.
  destruct (procs w1 !! pid p) as [pr1|] eqn:Hpr1; [|done].
  destruct (exit_graceful w1 self p pr1 d rc Hp Hpr1) as (w2 & Hrun2 & Hend2 & Htr & Hc).
  { apply after_sigterm_ended; [done|lia]. }
  { lia. }
  replace (N.max (clock w1) d) with (clock w1) in * by lia.
  exists w1, w2, rc. repeat split; try done.
  apply (alive_end_of w2 (pid p) d rc); [done|lia].
Qed.

Lemma exit_twice_witness :
  ∃ w1 w2 rc,
    __exit__ ((started stubborn).1, (started stubborn).2)
      = (Return (), (w1, (started stubborn).2)) ∧
    __exit__ (w1, (started stubborn).2) = (Return (), (w2, (started stubborn).2)) ∧
    trace w2 = trace w1 ++
      [(clock w1, EvTerminate 0);
       (clock w1, EvWait 0 (Some 5000%N) (Some rc));
       (clock w1, EvSleep 500)] ∧
    clock w2 = (clock w1 + 500)%N ∧
    alive w2 0 = false.
Proof.
  eapply (exit_twice (started stubborn).1 (started stubborn).2 (mkPopen 0 0 1)).
  - vm_compute. reflexivity.
  - vm_compute. reflexivity.
Defined.

(** X8: [__exit__] on a started child takes at least the half second of
    settle sleep and at most the five seconds of grace, the time the child
    needs to go after SIGKILL, and the settle sleep. *)
Theorem exit_duration w self p pr :
  process self = Some p →
  procs w !! pid p = Some pr →
  ∃ w',
    __exit__ (w, self) = (Return (), (w', self)) ∧
    (clock w + 500 ≤ clock w')%N ∧
    (clock w' ≤ clock w + 5000 + on_sigkill (behaviour pr) + 500)%N.
Proof.
  intros Hp Hpr.
  destruct (exit_run w self p pr Hp Hpr) as (w' & d & rc & Hrun & _ & _ & Hlo & Hhi).
  by exists w'.
Qed.

Lemma exit_duration_witness :
  ∃ pr w',
    procs (started stubborn).1 !! 0 = Some pr ∧
    __exit__ ((started stubborn).1, (started stubborn).2)
      = (Return (), (w', (started stubborn).2)) ∧
    (clock (started stubborn).1 + 500 ≤ clock w')%N ∧
    (clock w' ≤ clock (started stubborn).1 + 5000 + on_sigkill (behaviour pr) + 500)%N.
Proof.
  eexists.
  assert (Hpr : procs (started stubborn).1 !! pid (mkPopen 0 0 1) = Some
    (mkProc ["python"; "-m"; "openhands.agent_server"; "--port"; "8001";
             "--host"; "127.0.0.1"] {[ "LOG_JSON" := "true" ]} stubborn None))
    by (vm_compute; reflexivity).
  destruct (exit_duration (started stubborn).1 (started stubborn).2 (mkPopen 0 0 1) _
              eq_refl Hpr) as (w' & Hrun & Hlo & Hhi).
  exists w'. split; [exact Hpr|]. split; [exact Hrun|]. split; [exact Hlo|exact Hhi].
Defined.

Lemma exit_acts_on_own_child_only_witness :
  on_world (stopped 0) ((started stubborn).1, (started stubborn).2)
    (__exit__ ((started stubborn).1, (started stubborn).2)).2.
Proof.
  apply (exit_acts_on_own_child_only (started stubborn).1 (started stubborn).2
           (mkPopen 0 0 1)).
  vm_compute. reflexivity.
Defined.

(** ** The with statement *)

(** X9: the with statement releases the child on every way out of its body.
    Once [__enter__] has returned, whether the body returns or raises,
    [__exit__] runs, the outcome of the body is the outcome of the
    statement, and the child is not running afterwards.  The body may do
    what it likes, as long as it leaves the object and the record of the
    child in place. *)
Theorem with_releases_child {A} (body : t → Method A) w port host s st1 r st2 :
  __enter__ (w, __init__ port host) = (Return s, st1) →
  body s st1 = (r, st2) →
  r ≠ Block →
  st2.2 = st1.2 →
  is_Some (procs st2.1 !! length (procs w)) →
  ∃ w3,
    with_ body (w, __init__ port host) = (r, (w3, st1.2)) ∧
    alive w3 (length (procs w)) = false.
Proof.
  intros Henter Hbody Hr Hself [pr Hpr].
  pose proof (enter_returned_launched w port host s st1 Henter) as Hfault.
  destruct (enter_frame w port host Hfault) as (r0 & w1 & Hrun & _).
  destruct (launched_process w port host) as (p & Hp & Hpid).
  remember (launched w port host).2 as self1 eqn:Hs1.
  rewrite Henter in Hrun. injection Hrun as _ ->.
  destruct st2 as [w2 self2]. cbn [fst snd] in *. subst self2. rewrite <- Hpid in *.
  destruct (exit_run w2 self1 p pr Hp Hpr) as (w3 & d & rc & Hexit & Hend & Hd & _).
  exists w3. split.
  - unfold with_, try_finally. run. rewrite Henter, Hbody, Hexit. done.
  - apply (alive_end_of w3 (pid p) d rc); [done|lia].
Qed.

Lemma with_releases_child_witness :
  ∃ w3,
    with_ (λ _, raise (RuntimeError "conversation failed"))
      (fresh (λ i, if decide (i = 1) then ready else refused) stubborn,
       __init__ 8001 default_host)
      = (Raise (RuntimeError "conversation failed") : Outcome (), (w3, (started stubborn).2)) ∧
    alive w3 0 = false.
Proof.
  apply (with_releases_child (λ _, raise (RuntimeError "conversation failed"))
           (fresh (λ i, if decide (i = 1) then ready else refused) stubborn)
           8001 default_host (started stubborn).2 (started stubborn)
           (Raise (RuntimeError "conversation failed")) (started stubborn)).
  - vm_compute. reflexivity.
  - reflexivity.
  - discriminate.
  - reflexivity.
  - vm_compute. eauto.
Defined.

(** ** From the child to the streams of the parent *)

(** X10: after [__enter__] has returned, the two threads it has stored and
    started carry the output of the child: run on the world [__enter__]
    leaves, the stdout thread writes every line of the child's stdout to
    [sys.stdout], and the stderr thread every line of its stderr to
    [sys.stderr], each line behind "[SERVER] " and followed by a flush,
    provided no call on the streams fails. *)
Theorem enter_then_forward w port host self' w' out_lines err_lines :
  __enter__ (w, __init__ port host) = (Return self', (w', self')) →
  out_script (spawns w (length (procs w))) = Line <$> out_lines →
  err_script (spawns w (length (procs w))) = Line <$> err_lines →
  Forall (λ l, l ≠ "") out_lines → Forall (λ l, l ≠ "") err_lines →
  reliable (sys_stdout w) → reliable (sys_stderr w) →
  ∃ out err w_out w_err,
    stdout_thread self' = Some out ∧ stderr_thread self' = Some err ∧
    daemon out = true ∧ daemon err = true ∧
    run_thread out w' = (Return (), w_out) ∧
    received (sys_stdout w_out) =
      received (sys_stdout w') ++
      flat_map (λ l, [Write ("[SERVER] " +:+ l); Flush]) out_lines ∧
    run_thread err w' = (Return (), w_err) ∧
    received (sys_stderr w_err) =
      received (sys_stderr w') ++
      flat_map (λ l, [Write ("[SERVER] " +:+ l); Flush]) err_lines.
Proof.
  intros Henter Hout Herr Hne_out Hne_err Hrel_out Hrel_err.
  pose proof (enter_returned_launched w port host _ _ Henter) as Hfault.
  destruct (enter_frame w port host Hfault)
    as (r0 & w1 & Hrun & _ & ((_ & Hpi & _ & Hse & Hfl & _) & _) & _).
  rewrite Henter in Hrun. injection Hrun as _ <- ->.
  assert (Hpo : pipes w' !! length (pipes w) = Some (mkPipe (Line <$> out_lines) false)).
  { rewrite Hpi. unfold launched. simpl. rewrite Hout.
    by rewrite lookup_app_r, Nat.sub_diag by lia. }
  assert (Hpe : pipes w' !! S (length (pipes w)) = Some (mkPipe (Line <$> err_lines) false)).
  { rewrite Hpi. unfold launched. simpl. rewrite Herr.
    rewrite lookup_app_r by lia. by replace (S (length (pipes w)) - length (pipes w)) with 1 by lia. }
  destruct (stream_output_all (length (pipes w)) "SERVER" Stdout w' out_lines Hpo Hne_out)
    as (w_out & Hro & Hreco).
  { unfold reliable. simpl. rewrite Hfl. exact Hrel_out. }
  destruct (stream_output_all (S (length (pipes w))) "SERVER" Stderr w' err_lines Hpe Hne_err)
    as (w_err & Hre & Hrece).
  { unfold reliable. simpl. rewrite Hse. exact Hrel_err. }
  eexists _, _, w_out, w_err. split; [reflexivity|]. split; [reflexivity|].
  split; [reflexivity|]. split; [reflexivity|].
  split; [exact Hro|]. split; [exact Hreco|]. split; [exact Hre|exact Hrece].
Qed.

Lemma enter_then_forward_witness :
  ∃ out err w_out w_err,
    stdout_thread (started chatty).2 = Some out ∧
    stderr_thread (started chatty).2 = Some err ∧
    daemon out = true ∧ daemon err = true ∧
    run_thread out (started chatty).1 = (Return (), w_out) ∧
    received (sys_stdout w_out) =
      received (sys_stdout (started chatty).1) ++
      flat_map (λ l, [Write ("[SERVER] " +:+ l); Flush])
        ["starting" +:+ nl; "listening" +:+ nl] ∧
    run_thread err (started chatty).1 = (Return (), w_err) ∧
    received (sys_stderr w_err) =
      received (sys_stderr (started chatty).1) ++
      flat_map (λ l, [Write ("[SERVER] " +:+ l); Flush]) [].
Proof.
  apply (enter_then_forward
           (fresh (λ i, if decide (i = 1) then ready else refused) chatty)
           8001 default_host).
  - vm_compute. reflexivity.
  - reflexivity.
  - reflexivity.
  - repeat constructor; discriminate.
  - constructor.
  - constructor.
  - constructor.
Defined.

(** ** The forwarding task under faults *)

Lemma sink_call_ok fd op w k :
  reliable_for (S k) (sink fd w) →
  ∃ w',
    sink_call fd op w = (Return (), w') ∧
    same_os w w' ∧ pipes w' = pipes w ∧
    (∀ fd', fd' ≠ fd → sink fd' w' = sink fd' w) ∧
    received (sink fd w') = received (sink fd w) ++ [op] ∧
    faults (sink fd w') = drop 1 (faults (sink fd w)) ∧
    reliable_for k (sink fd w').
Proof.
  intros Hrel.
  destruct (sink_call_inv fd op w) as (r & w' & -> & Ho & Hp & Hs & Hr).
  unfold reliable_for in *. destruct r as [[]|e|]; [|exfalso|done].
  - destruct Hr as [Hrec Hfl]. exists w'. do 6 (split; [done|]).
    rewrite Hfl. destruct (faults (sink fd w)) as [|f fl]; [by destruct k; constructor|].
      simpl in *. by inversion Hrel.
  - destruct Hr as [_ Hfl]. rewrite Hfl in Hrel. simpl in Hrel. by inversion Hrel.
Qed.

(** As long as lines come and the target takes them, the loop forwards
    them and goes on with the rest of the pipe. *)
Lemma forward_lines_prefix i prefix fd : ∀ ls m w rest,
  pipes w !! i = Some (mkPipe ((Line <$> ls) ++ rest) false) →
  Forall (λ l, l ≠ "") ls →
  reliable_for (2 * length ls) (sink fd w) →
  ∃ w1,
    forward_lines (length ls + m) i prefix fd w = forward_lines m i prefix fd w1 ∧
    same_os w w1 ∧
    pipes w1 = <[i := mkPipe rest false]> (pipes w) ∧
    (∀ fd', fd' ≠ fd → sink fd' w1 = sink fd' w) ∧
    received (sink fd w1) = received (sink fd w) ++ flat_map (labelled prefix) ls ∧
    faults (sink fd w1) = drop (2 * length ls) (faults (sink fd w)).
Proof.
  induction ls as [|l ls IH]; intros m w rest Hp Hne Hrel.
  - exists w. simpl. rewrite app_nil_r.
    split; [done|]. split; [apply same_os_refl|].
    split; [symmetry; by apply list_insert_id|]. done.
  - inversion_clear Hne as [|?? Hl Hls].
    change (length (l :: ls) + m) with (S (length ls + m)).
    rewrite forward_lines_S. unfold readline. rewrite Hp. simpl.
    rewrite decide_False by done.
    set (w0 := set_pipes _ w).
    assert (Hp0 : pipes w0 !! i = Some (mkPipe ((Line <$> ls) ++ rest) false)).
    { apply list_lookup_insert_eq. by eapply lookup_lt_Some. }
    assert (Hs0 : ∀ fd', sink fd' w0 = sink fd' w) by (by intros []).
    replace (2 * length (l :: ls)) with (S (S (2 * length ls))) in Hrel by (simpl; lia).
    unfold write, flush.
    destruct (sink_call_ok fd (Write ("[" +:+ prefix +:+ "] " +:+ l)) w0 (S (2 * length ls)))
      as (w2 & -> & Ho2 & Hp2 & Hs2 & Hr2 & Hf2 & Hrel2); [by rewrite Hs0|].
    destruct (sink_call_ok fd Flush w2 (2 * length ls))
      as (w3 & -> & Ho3 & Hp3 & Hs3 & Hr3 & Hf3 & Hrel3); [done|].
    destruct (IH m w3 rest) as (w1 & -> & Ho & Hp1 & Hs1 & Hr1 & Hf1); [congruence|done|done|].
    exists w1. split; [done|]. split.
    { eapply same_os_trans; [|exact Ho]. eapply same_os_trans; [|exact Ho3].
      eapply same_os_trans; [|exact Ho2]. by repeat split. }
    split; [by rewrite Hp1, Hp3, Hp2; subst w0; simpl; rewrite list_insert_insert_eq|].
    split; [by intros fd' Hfd; rewrite Hs1, Hs3, Hs2, Hs0|].
    split.
    + rewrite Hr1, Hr3, Hr2, Hs0, <- !app_assoc. done.
    + rewrite Hf1, Hf3, Hf2, Hs0, !drop_drop. f_equal. simpl. lia.
Qed.

Lemma readline_fault i w e rest :
  pipes w !! i = Some (mkPipe (ReadFault e :: rest) false) →
  ∃ w',
    readline i w = (Raise e, w') ∧
    pipes w' !! i = Some (mkPipe rest false) ∧
    (∀ fd, sink fd w' = sink fd w).
Proof.
  intros Hp. unfold readline. rewrite Hp. simpl. eexists. split; [reflexivity|].
  split; [|by intros []]. simpl. apply list_lookup_insert_eq. by eapply lookup_lt_Some.
Qed.

Lemma call_outcome_drop s s' k :
  faults s' = drop k (faults s) → call_outcome s' 0 = call_outcome s k.
Proof.
  unfold call_outcome. intros ->. by rewrite lookup_drop, Nat.add_0_r.
Qed.

(** When the loop of the task raises [e], the task ends as the print of the
    report does, and closes its source. *)
Lemma stream_output_handles stream prefix target_stream w e w2 :
  forward_lines (S (pending stream w)) stream prefix target_stream w = (Raise e, w2) →
  ∃ w',
    _stream_output stream prefix target_stream w = (call_outcome (sys_stderr w2) 0, w') ∧
    received (sink target_stream w') =
      received (sink target_stream w2) ++
      (if decide (target_stream = Stderr)
       then reported (call_outcome (sys_stderr w2) 0) prefix e else []) ∧
    received (sys_stderr w') =
      received (sys_stderr w2) ++ reported (call_outcome (sys_stderr w2) 0) prefix e ∧
    sys_stdout w' = sys_stdout w2 ∧
    (∀ p, pipes w2 !! stream = Some p →
          pipes w' !! stream = Some (mkPipe (incoming p) true)) ∧
    (∀ j, j ≠ stream → pipes w' !! j = pipes w2 !! j).
Proof.
  intros Hloop. rewrite stream_output_unfold, Hloop.
  destruct (report_inv prefix e w2) as (w3 & -> & _ & Hp3 & Hout3 & Hr3 & _).
  destruct (close_inv stream w3) as (w' & Hcl & _ & Hp & Hi & Hs).
  rewrite Hcl. exists w'. split; [done|].
  pose proof (Hs Stderr) as Herr. pose proof (Hs Stdout) as Hout. simpl in Herr, Hout.
  split.
  { rewrite Hs. destruct target_stream; simpl; [by rewrite Hout3, app_nil_r|done]. }
  split; [by rewrite Herr|]. split; [congruence|]. split.
  - intros p Hp2. apply Hi. by rewrite Hp3.
  - intros j Hj. by rewrite Hp, Hp3.
Qed.

(** X11: a read fault in the middle of the stream.  The lines read before
    the fault are forwarded and the source is closed with the lines behind
    the fault unread: they are lost.  The task prints the report of the
    fault to [sys.stderr]: when [sys.stderr] takes it the task returns, and
    when that print raises the task raises its error and nothing is
    reported.  The print is the first call on [sys.stderr], or the one after
    the calls for the lines when [sys.stderr] is the target. *)
Theorem stream_output_read_fault_drops_rest stream prefix target_stream w ls e rest :
  pipes w !! stream = Some (mkPipe ((Line <$> ls) ++ ReadFault e :: rest) false) →
  Forall (λ l, l ≠ "") ls →
  reliable_for (2 * length ls) (sink target_stream w) →
  ∃ r w',
    _stream_output stream prefix target_stream w = (r, w') ∧
    r = call_outcome (sys_stderr w)
          (if decide (target_stream = Stderr) then 2 * length ls else 0) ∧
    received (sink target_stream w') =
      received (sink target_stream w) ++ flat_map (labelled prefix) ls ++
      (if decide (target_stream = Stderr) then reported r prefix e else []) ∧
    (target_stream = Stdout →
     received (sys_stderr w') = received (sys_stderr w) ++ reported r prefix e) ∧
    pipes w' !! stream = Some (mkPipe rest true).
Proof.
  intros Hp Hne Hrel.
  assert (Hlt : stream < length (pipes w)) by by eapply lookup_lt_Some.
  assert (Hloop : ∃ w2,
    forward_lines (S (pending stream w)) stream prefix target_stream w = (Raise e, w2) ∧
    pipes w2 !! stream = Some (mkPipe rest false) ∧
    (∀ fd', fd' ≠ target_stream → sink fd' w2 = sink fd' w) ∧
    received (sink target_stream w2) =
      received (sink target_stream w) ++ flat_map (labelled prefix) ls ∧
    faults (sink target_stream w2) = drop (2 * length ls) (faults (sink target_stream w))).
  { replace (S (pending stream w)) with (length ls + S (S (length rest))).
    2:{ unfold pending. rewrite Hp. simpl. rewrite length_app, length_fmap. simpl. lia. }
    destruct (forward_lines_prefix stream prefix target_stream ls (S (S (length rest))) w
                (ReadFault e :: rest) Hp Hne Hrel)
      as (w1 & -> & _ & Hp1 & Hs1 & Hr1 & Hf1).
    rewrite forward_lines_S.
    destruct (readline_fault stream w1 e rest) as (w2 & -> & Hp2 & Hs2).
    { by rewrite Hp1, list_lookup_insert_eq. }
    exists w2. split; [done|]. split; [done|].
    split; [by intros fd' Hfd; rewrite Hs2, Hs1|]. by rewrite !Hs2. }
  destruct Hloop as (w2 & Hloop & Hp2 & Hs2 & Hr2 & Hf2).
  destruct (stream_output_handles stream prefix target_stream w e w2 Hloop)
    as (w' & Hrun & Hrec & Herr & _ & Hcl & _).
  assert (Hk : call_outcome (sys_stderr w2) 0 =
               call_outcome (sys_stderr w)
                 (if decide (target_stream = Stderr) then 2 * length ls else 0)).
  { destruct target_stream.
    - rewrite decide_False by done. pose proof (Hs2 Stderr) as Hsame.
      simpl in Hsame. by rewrite Hsame.
    - rewrite decide_True by done. by apply call_outcome_drop. }
  rewrite Hk in *.
  eexists _, w'. split; [exact Hrun|]. split; [done|]. split; [|split].
  - by rewrite Hrec, Hr2, <- app_assoc.
  - intros ->. rewrite Herr. pose proof (Hs2 Stderr) as Hsame.
    simpl in Hsame. by rewrite Hsame.
  - by apply (Hcl (mkPipe rest false)).
Qed.

Lemma stream_output_read_fault_drops_rest_witness :
  ∃ r w',
    _stream_output 0 "SERVER" Stdout (started garbled).1 = (r, w') ∧
    r = call_outcome (sys_stderr (started garbled).1)
          (if decide (Stdout = Stderr) then 2 * length ["starting" +:+ nl] else 0) ∧
    received (sink Stdout w') =
      received (sink Stdout (started garbled).1) ++
      flat_map (labelled "SERVER") ["starting" +:+ nl] ++
      (if decide (Stdout = Stderr)
       then reported r "SERVER" (LibraryError "invalid start byte") else []) ∧
    (Stdout = Stdout →
     received (sys_stderr w') =
       received (sys_stderr (started garbled).1) ++
       reported r "SERVER" (LibraryError "invalid start byte")) ∧
    pipes w' !! 0 = Some (mkPipe [] true).
Proof.
  apply (stream_output_read_fault_drops_rest 0 "SERVER" Stdout (started garbled).1
           ["starting" +:+ nl] (LibraryError "invalid start byte") []).
  - vm_compute. reflexivity.
  - repeat constructor; discriminate.
  - vm_compute. constructor.
Defined.

Lemma sink_call_fails fd op w e fl :
  faults (sink fd w) = Some e :: fl →
  ∃ w',
    sink_call fd op w = (Raise e, w') ∧
    pipes w' = pipes w ∧
    (∀ fd', fd' ≠ fd → sink fd' w' = sink fd' w) ∧
    received (sink fd w') = received (sink fd w) ∧
    faults (sink fd w') = fl.
Proof.
  intros Hf. unfold sink_call. rewrite Hf. eexists. split; [reflexivity|].
  by destruct fd; repeat split; try done; intros [].
Qed.

Lemma readline_line i w l rest :
  pipes w !! i = Some (mkPipe (Line l :: rest) false) →
  ∃ w',
    readline i w = (Return l, w') ∧
    pipes w' !! i = Some (mkPipe rest false) ∧
    (∀ fd, sink fd w' = sink fd w).
Proof.
  intros Hp. unfold readline. rewrite Hp. simpl. eexists. split; [reflexivity|].
  split; [|by intros []]. simpl. apply list_lookup_insert_eq. by eapply lookup_lt_Some.
Qed.

Lemma take_labelled_even prefix : ∀ ls j,
  take (2 * j) (flat_map (labelled prefix) ls) = flat_map (labelled prefix) (take j ls).
Proof.
  induction ls as [|l ls IH]; intros [|j]; try done.
  replace (2 * S j) with (S (S (2 * j))) by lia. simpl. do 2 f_equal. apply IH.
Qed.

Lemma take_labelled_odd prefix : ∀ ls j l,
  ls !! j = Some l →
  take (S (2 * j)) (flat_map (labelled prefix) ls) =
    flat_map (labelled prefix) (take j ls) ++ [Write ("[" +:+ prefix +:+ "] " +:+ l)].
Proof.
  induction ls as [|l0 ls IH]; intros [|j] l Hl; try done.
  - by injection Hl as ->.
  - replace (2 * S j) with (S (S (2 * j))) by lia. simpl. do 2 f_equal. by apply IH.
Qed.

(** X12: the first call on the target that fails ends the forwarding.  When
    the [k]-th call on the target (counted from 0) is the first one to raise,
    with [e], and falls on one of the lines [ls] the pipe holds, the target
    has received the [k] calls before it and no call for a line after it,
    and the source is closed: the line being forwarded is lost and the lines
    behind it stay unread.  The task prints the report of [e] to
    [sys.stderr]: when [sys.stderr] takes it the task returns, and when that
    print raises the task raises its error and nothing is reported.  The
    print is the first call on [sys.stderr], or call [k + 1] when
    [sys.stderr] is the target. *)
Theorem stream_output_write_fault_stops stream prefix target_stream w ls rest k e :
  pipes w !! stream = Some (mkPipe ((Line <$> ls) ++ rest) false) →
  Forall (λ l, l ≠ "") ls →
  k < 2 * length ls →
  reliable_for k (sink target_stream w) →
  faults (sink target_stream w) !! k = Some (Some e) →
  ∃ r w',
    _stream_output stream prefix target_stream w = (r, w') ∧
    r = call_outcome (sys_stderr w) (if decide (target_stream = Stderr) then S k else 0) ∧
    received (sink target_stream w') =
      received (sink target_stream w) ++ take k (flat_map (labelled prefix) ls) ++
      (if decide (target_stream = Stderr) then reported r prefix e else []) ∧
    (target_stream = Stdout →
     received (sys_stderr w') = received (sys_stderr w) ++ reported r prefix e) ∧
    pipes w' !! stream = Some (mkPipe ((Line <$> drop (S (k / 2)) ls) ++ rest) true).
Proof.
  intros Hp Hne Hk Hrel Hfault.
  assert (Hlt : stream < length (pipes w)) by by eapply lookup_lt_Some.
  set (j := k / 2).
  assert (Hj : j < length ls) by (subst j; apply Nat.Div0.div_lt_upper_bound; lia).
  destruct (lookup_lt_is_Some_2 ls j Hj) as [l Hl].
  assert (Hsplit : ls = take j ls ++ l :: drop (S j) ls)
    by (by rewrite <- (take_drop_middle ls j l Hl) at 1).
  assert (Hlen : length (take j ls) = j) by (rewrite length_take; lia).
  assert (Hp' : pipes w !! stream =
    Some (mkPipe ((Line <$> take j ls) ++ Line l :: (Line <$> drop (S j) ls) ++ rest) false)).
  { rewrite Hp. do 2 f_equal. rewrite Hsplit at 1.
    by rewrite fmap_app, fmap_cons, <- app_assoc. }
  assert (Hkj : k = 2 * j ∨ k = S (2 * j)).
  { pose proof (Nat.div_mod_eq k 2). pose proof (Nat.mod_upper_bound k 2). subst j. lia. }
  assert (Hrelj : reliable_for (2 * length (take j ls)) (sink target_stream w)).
  { rewrite Hlen. unfold reliable_for in *.
    assert (take (2 * j) (faults (sink target_stream w)) =
            take (2 * j) (take k (faults (sink target_stream w)))) as ->
      by (rewrite take_take; f_equal; lia).
    by apply Forall_take. }
  assert (Hnel : l ≠ "").
  { rewrite Forall_forall in Hne. apply Hne. by eapply list_elem_of_lookup_2. }
  assert (Hnej : Forall (λ l, l ≠ "") (take j ls)) by by apply Forall_take.
  assert (Hloop : ∃ w3,
    forward_lines (S (pending stream w)) stream prefix target_stream w = (Raise e, w3) ∧
    pipes w3 !! stream = Some (mkPipe ((Line <$> drop (S j) ls) ++ rest) false) ∧
    (∀ fd', fd' ≠ target_stream → sink fd' w3 = sink fd' w) ∧
    received (sink target_stream w3) =
      received (sink target_stream w) ++ take k (flat_map (labelled prefix) ls) ∧
    faults (sink target_stream w3) = drop (S k) (faults (sink target_stream w))).
  { replace (S (pending stream w))
      with (length (take j ls) + S (S (length (drop (S j) ls) + length rest))).
    2:{ unfold pending. rewrite Hp'. simpl.
        rewrite length_app, length_fmap. simpl. rewrite length_app, length_fmap. lia. }
    destruct (forward_lines_prefix stream prefix target_stream (take j ls)
              (S (S (length (drop (S j) ls) + length rest))) w
              (Line l :: (Line <$> drop (S j) ls) ++ rest) Hp' Hnej Hrelj)
    as (w1 & -> & _ & Hp1 & Hs1 & Hr1 & Hf1).
  rewrite Hlen in Hf1.
  rewrite forward_lines_S.
  destruct (readline_line stream w1 l ((Line <$> drop (S j) ls) ++ rest))
    as (w2 & -> & Hp2 & Hs2).
  { by rewrite Hp1, list_lookup_insert_eq. }
  rewrite decide_False by done. unfold write, flush.
    destruct Hkj as [Hk2|Hk2].
    - destruct (sink_call_fails target_stream (Write ("[" +:+ prefix +:+ "] " +:+ l)) w2 e
                  (drop (S k) (faults (sink target_stream w))))
        as (w3 & -> & Hp3 & Hs3 & Hr3 & Hf3).
      { rewrite Hs2, Hf1, <- Hk2. by apply drop_S. }
      exists w3. split; [done|]. split; [by rewrite Hp3|].
      split; [by intros fd' Hfd; rewrite Hs3, Hs2, Hs1|]. split; [|done].
      rewrite Hr3, Hs2, Hr1, Hk2, take_labelled_even. done.
    - assert (Hnone : faults (sink target_stream w) !! (2 * j) = Some None).
      { destruct (lookup_lt_is_Some_2 (faults (sink target_stream w)) (2 * j)) as [f Hf].
        { apply lookup_lt_Some in Hfault. lia. }
        rewrite Hf. f_equal. unfold reliable_for in Hrel. rewrite Forall_forall in Hrel.
        apply Hrel. apply (list_elem_of_lookup_2 _ (2 * j)).
        rewrite lookup_take_lt by lia. done. }
      assert (Hdrop : faults (sink target_stream w2) =
                      None :: Some e :: drop (S k) (faults (sink target_stream w))).
      { rewrite Hs2, Hf1. rewrite (drop_S _ _ _ Hnone). f_equal.
        rewrite <- Hk2. by apply drop_S. }
      destruct (sink_call_ok target_stream (Write ("[" +:+ prefix +:+ "] " +:+ l)) w2 0)
        as (w2' & -> & _ & Hp2' & Hs2' & Hr2' & Hf2' & _).
      { unfold reliable_for. rewrite Hdrop. simpl. by repeat constructor. }
      destruct (sink_call_fails target_stream Flush w2' e
                  (drop (S k) (faults (sink target_stream w))))
        as (w3 & -> & Hp3 & Hs3 & Hr3 & Hf3).
      { by rewrite Hf2', Hdrop. }
      exists w3. split; [done|]. split; [by rewrite Hp3, Hp2'|].
      split; [by intros fd' Hfd; rewrite Hs3, Hs2', Hs2, Hs1|]. split; [|done].
      rewrite Hr3, Hr2', Hs2, Hr1, Hk2, (take_labelled_odd prefix ls j l Hl), <- app_assoc.
      done. }
  destruct Hloop as (w3 & Hloop & Hp3 & Hs3 & Hr3 & Hf3).
  destruct (stream_output_handles stream prefix target_stream w e w3 Hloop)
    as (w' & Hrun & Hrec & Herr & _ & Hcl & _).
  assert (Hout : call_outcome (sys_stderr w3) 0 =
                 call_outcome (sys_stderr w)
                   (if decide (target_stream = Stderr) then S k else 0)).
  { destruct target_stream.
    - rewrite decide_False by done. pose proof (Hs3 Stderr) as Hsame.
      simpl in Hsame. by rewrite Hsame.
    - rewrite decide_True by done. by apply call_outcome_drop. }
  rewrite Hout in *.
  eexists _, w'. split; [exact Hrun|]. split; [done|]. split; [|split].
  - by rewrite Hrec, Hr3, <- app_assoc.
  - intros ->. rewrite Herr. pose proof (Hs3 Stderr) as Hsame.
    simpl in Hsame. by rewrite Hsame.
  - by apply (Hcl (mkPipe ((Line <$> drop (S j) ls) ++ rest) false)).
Qed.

Lemma stream_output_write_fault_stops_witness :
  ∃ r w',
    _stream_output 0 "SERVER" Stdout (breaking_stdout (started chatty).1) = (r, w') ∧
    r = call_outcome (sys_stderr (breaking_stdout (started chatty).1))
          (if decide (Stdout = Stderr) then 4 else 0) ∧
    received (sink Stdout w') =
      received (sink Stdout (breaking_stdout (started chatty).1)) ++
      take 3 (flat_map (labelled "SERVER") ["starting" +:+ nl; "listening" +:+ nl]) ++
      (if decide (Stdout = Stderr)
       then reported r "SERVER" (LibraryError "Broken pipe") else []) ∧
    (Stdout = Stdout →
     received (sys_stderr w') =
       received (sys_stderr (breaking_stdout (started chatty).1)) ++
       reported r "SERVER" (LibraryError "Broken pipe")) ∧
    pipes w' !! 0 = Some (mkPipe ((Line <$> drop (S (3 / 2)) ["starting" +:+ nl; "listening" +:+ nl]) ++ []) true).
Proof.
  apply (stream_output_write_fault_stops 0 "SERVER" Stdout
           (breaking_stdout (started chatty).1)
           ["starting" +:+ nl; "listening" +:+ nl] [] 3 (LibraryError "Broken pipe")).
  - vm_compute. reflexivity.
  - repeat constructor; discriminate.
  - simpl. lia.
  - vm_compute. repeat constructor.
  - vm_compute. reflexivity.
Defined.

(** When [sys.stderr] is the target and is gone, the write raises, the print
    of the report raises in turn, and the task raises, with its source
    closed. *)
Example stream_output_to_deaf_stderr :
  let '(r, w') :=
    run_thread (mkThread 1 "SERVER" Stderr true) (deaf_stderr (started complaining).1) in
  r = Raise (LibraryError "Broken pipe") ∧
  received (sys_stderr w') = [] ∧
  pipes w' !! 1 = Some (mkPipe [] true).
Proof. vm_compute. done. Qed.

Lemma readline_closed i w p :
  pipes w !! i = Some p → closed p = true →
  ∃ e, readline i w = (Raise e, w).
Proof. intros Hp Hc. unfold readline. rewrite Hp, Hc. by eexists. Qed.

(** On a stream that is closed already the task forwards nothing: it
    prints the report of the error of the first [readline] and ends as that
    print does. *)
Lemma stream_output_closed stream prefix target_stream w p :
  pipes w !! stream = Some p → closed p = true →
  ∃ e w',
    _stream_output stream prefix target_stream w = (call_outcome (sys_stderr w) 0, w') ∧
    sys_stdout w' = sys_stdout w ∧
    received (sys_stderr w') =
      received (sys_stderr w) ++ reported (call_outcome (sys_stderr w) 0) prefix e ∧
    pipes w' = pipes w.
Proof.
  intros Hp Hc.
  destruct (readline_closed stream w p Hp Hc) as [e Hread].
  assert (Hloop : forward_lines (S (pending stream w)) stream prefix target_stream w
                  = (Raise e, w)) by (by rewrite forward_lines_S, Hread).
  destruct (stream_output_handles stream prefix target_stream w e w Hloop)
    as (w' & Hrun & _ & Herr & Hout & Hcl & Hrest).
  exists e, w'. split; [done|]. split; [done|]. split; [done|].
  apply list_eq. intros j. destruct (decide (j = stream)) as [->|Hj]; [|by apply Hrest].
  rewrite (Hcl p Hp), Hp. destruct p as [inc c]. simpl in *. by subst c.
Qed.

(** X13: a stream is forwarded once.  Whatever the first run of the task on
    a pipe met, a second run on the same pipe forwards nothing, also when the
    first run has left lines unread: it writes nothing to [sys.stdout] and
    leaves the pipes as they are.  It prints one report to [sys.stderr] and
    ends as that print does: it returns when [sys.stderr] takes the report,
    and raises the error of the print, with nothing reported, otherwise. *)
Theorem stream_output_forwards_once stream prefix target_stream w p :
  pipes w !! stream = Some p →
  ∃ r1 w1 e w2,
    _stream_output stream prefix target_stream w = (r1, w1) ∧
    r1 ≠ Block ∧
    _stream_output stream prefix target_stream w1
      = (call_outcome (sys_stderr w1) 0, w2) ∧
    sys_stdout w2 = sys_stdout w1 ∧
    received (sys_stderr w2) =
      received (sys_stderr w1) ++ reported (call_outcome (sys_stderr w1) 0) prefix e ∧
    pipes w2 = pipes w1.
Proof.
  intros Hp.
  destruct (stream_output_ends stream prefix target_stream w)
    as (r0 & w0 & r1 & w1 & _ & Hrun1 & Hb & (_ & _ & Hc & _) & Hr & _ & _ & _ & Hi).
  rewrite Hp in Hc. destruct (pipes w0 !! stream) as [p0|] eqn:Hp0; [|done].
  assert (Hb1 : r1 ≠ Block).
  { destruct r0 as [[]|e|]; [by destruct Hr as [-> _]| |done].
    destruct Hr as (-> & _). unfold call_outcome. by destruct (faults _ !! 0) as [[|]|]. }
  destruct (stream_output_closed stream prefix target_stream w1
              (mkPipe (incoming p0) true) (Hi p0 eq_refl) eq_refl)
    as (e & w2 & Hrun2 & Hout & Herr & Hpipes).
  by exists r1, w1, e, w2.
Qed.

Lemma stream_output_forwards_once_witness :
  ∃ r1 w1 e w2,
    _stream_output 0 "SERVER" Stdout (started garbled).1 = (r1, w1) ∧
    r1 ≠ Block ∧
    _stream_output 0 "SERVER" Stdout w1 = (call_outcome (sys_stderr w1) 0, w2) ∧
    sys_stdout w2 = sys_stdout w1 ∧
    received (sys_stderr w2) =
      received (sys_stderr w1) ++ reported (call_outcome (sys_stderr w1) 0) "SERVER" e ∧
    pipes w2 = pipes w1.
Proof.
  eapply (stream_output_forwards_once 0 "SERVER" Stdout (started garbled).1).
  vm_compute. reflexivity.
Defined.

Ltac srun :=
  unfold Script.logger_info, Script.time_time, Script.assign, Script.os, emit, advance,
    mbind, M_bind, mret, M_ret, raise, block, gets, modify in *.

Lemma event_callback_eq ev w s :
  Script.event_callback ev (w, s) =
    (Return (),
     (w, Script.mkVars (Script.received_events s ++ [ev]) (clock w)
           (Script.logged s ++
            ["🔔 回调收到事件: " +:+ Script.type_name ev +:+ nl +:+ Script.shown ev])
           (Script.feed s))).
Proof. reflexivity. Qed.

Lemma clock_after_ge now del : (now ≤ clock_after now del)%N.
Proof.
  revert now. induction del as [|p del IH]; intros now; simpl; [lia|].
  specialize (IH (N.max now p.1)). lia.
Qed.

Lemma clock_after_le now del D :
  (now ≤ D)%N → Forall (λ p, (p.1 ≤ D)%N) del → (clock_after now del ≤ D)%N.
Proof.
  intros Hn Hdel. revert now Hn. induction Hdel as [|p del Hp _ IH]; intros now Hn; simpl; [done|].
  apply IH. lia.
Qed.

Lemma sleep_until_cons D a ev rest w s :
  (a ≤ D)%N →
  Script.sleep_until D ((a, ev) :: rest) (w, s) =
    Script.sleep_until D rest
      (set_clock (clock w + (a - clock w)) w,
       Script.mkVars (Script.received_events s ++ [ev]) (clock w + (a - clock w))
         (Script.logged s ++
          ["🔔 回调收到事件: " +:+ Script.type_name ev +:+ nl +:+ Script.shown ev])
         rest).
Proof.
  intros Ha. simpl. destruct (N.leb_spec a D); [|lia]. reflexivity.
Qed.

Lemma sleep_until_later D a ev rest w s :
  (D < a)%N →
  Script.sleep_until D ((a, ev) :: rest) (w, s) =
    (Return (), (set_clock (clock w + (D - clock w)) w, s)).
Proof.
  intros Ha. simpl. destruct (N.leb_spec a D); [lia|]. reflexivity.
Qed.

Lemma sleep_until_spec : ∀ coming D w s,
  Script.feed s = coming → (clock w ≤ D)%N →
  ∃ w' s' del,
    Script.sleep_until D coming (w, s) = (Return (), (w', s')) ∧
    coming = del ++ Script.feed s' ∧
    Script.received_events s' = Script.received_events s ++ del.*2 ∧
    clock w' = D ∧
    Script.last_event_time s' = stamped (clock w) (Script.last_event_time s) del ∧
    Forall (λ p, (p.1 ≤ D)%N) del ∧
    match Script.feed s' with p :: _ => (D < p.1)%N | [] => True end ∧
    trace w' = trace w ∧ procs w' = procs w ∧ pipes w' = pipes w.
Proof.
  induction coming as [|[a ev] rest IH]; intros D w s Hfeed Hc.
  - exists (set_clock D w), s, []. simpl. srun. simpl.
    replace (clock w + (D - clock w))%N with D by lia.
    rewrite Hfeed, app_nil_r. done.
  - destruct (N.leb_spec a D) as [Ha|Ha].
    + rewrite (sleep_until_cons D a ev rest w s Ha).
      set (w1 := set_clock _ w). set (s1 := Script.mkVars _ _ _ _).
      assert (Hmax : clock w1 = N.max (clock w) a) by (subst w1; simpl; lia).
      destruct (IH D w1 s1)
        as (w' & s' & del & -> & Hd & Hr & Hc' & Hl & Hall & Hnext & Ht & Hp & Hpi);
        [done|lia|].
      exists w', s', ((a, ev) :: del). split; [done|].
      split; [by rewrite Hd|]. split; [by rewrite Hr; subst s1; simpl; rewrite <- app_assoc|].
      split; [done|]. split.
      { rewrite Hl. subst s1. cbn [Script.last_event_time]. rewrite Hmax.
        replace (clock w + (a - clock w))%N with (N.max (clock w) a) by lia.
        destruct del; reflexivity. }
      split; [by constructor|]. done.
    + rewrite (sleep_until_later D a ev rest w s Ha).
      exists (set_clock (clock w + (D - clock w)) w), s, [].
      split; [done|]. rewrite Hfeed. simpl. rewrite app_nil_r.
      repeat split; try done. lia.
Qed.

Lemma clock_after_bounds del : ∀ now,
  Forall (λ p, (p.1 ≤ clock_after now del)%N) del.
Proof.
  induction del as [|p del IH]; intros now; simpl; [constructor|].
  constructor; [|apply IH].
  pose proof (clock_after_ge (N.max now p.1) del). lia.
Qed.

Lemma time_sleep_spec d w s :
  ∃ w' s' del,
    Script.time_sleep d (w, s) = (Return (), (w', s')) ∧
    Script.feed s = del ++ Script.feed s' ∧
    Script.received_events s' = Script.received_events s ++ del.*2 ∧
    clock w' = (clock w + d)%N ∧
    Script.last_event_time s' = stamped (clock w) (Script.last_event_time s) del ∧
    Forall (λ p, (p.1 ≤ clock w + d)%N) del ∧
    match Script.feed s' with p :: _ => (clock w + d < p.1)%N | [] => True end ∧
    trace w' = trace w ++ [(clock w, EvSleep d)] ∧ procs w' = procs w ∧ pipes w' = pipes w.
Proof.
  pose (w1 := set_trace (trace w ++ [(clock w, EvSleep d)]) w).
  destruct (sleep_until_spec (Script.feed s) (clock w1 + d) w1 s eq_refl)
    as (w' & s' & del & Hrun & Hd & Hr & Hc & Hl & Hall & Hnext & Ht & Hp & Hpi); [lia|].
  exists w', s', del. split; [exact Hrun|]. done.
Qed.

Lemma wait_loop_S n w s :
  Script.wait_loop (S n) (w, s) =
    if (Z.of_N (clock w) - Z.of_N (Script.last_event_time s) <? 2000)%Z then
      match Script.time_sleep 100 (w, s) with
      | (Return _, st) => Script.wait_loop n st
      | (Raise e, st) => (Raise e, st)
      | (Block, st) => (Block, st)
      end
    else (Return (), (w, s)).
Proof.
  simpl. srun. cbn [fst snd].
  destruct (Z.of_N (clock w) - Z.of_N (Script.last_event_time s) <? 2000)%Z; reflexivity.
Qed.

Arguments Script.wait_loop : simpl never.
Arguments Script.time_sleep : simpl never.

Lemma stamped_ge now last del :
  (last ≤ now)%N → (last ≤ stamped now last del)%N.
Proof.
  intros Hl. destruct del as [|p del]; [done|].
  unfold stamped. pose proof (clock_after_ge now (p :: del)). lia.
Qed.

Lemma stamped_le now last del D :
  (last ≤ now)%N → (now ≤ D)%N → Forall (λ p, (p.1 ≤ D)%N) del →
  (stamped now last del ≤ D)%N.
Proof.
  intros Hl Hn Hdel. destruct del as [|p del]; [simpl; lia|].
  by apply clock_after_le.
Qed.

Lemma stamped_bounds now last del :
  Forall (λ p, (p.1 ≤ stamped now last del)%N) del.
Proof. destruct del as [|p del]; [constructor|apply clock_after_bounds]. Qed.

Lemma wait_loop_ends : ∀ fuel w s,
  (Script.last_event_time s ≤ clock w)%N →
  next_later w s →
  rounds_left w s + 21 * length (Script.feed s) < fuel →
  ∃ w' s' del k,
    Script.wait_loop fuel (w, s) = (Return (), (w', s')) ∧
    Script.feed s = del ++ Script.feed s' ∧
    Script.received_events s' = Script.received_events s ++ del.*2 ∧
    (Script.last_event_time s' + 2000 ≤ clock w')%N ∧
    (Script.last_event_time s ≤ Script.last_event_time s')%N ∧
    Forall (λ p, (p.1 ≤ Script.last_event_time s')%N) del ∧
    next_later w' s' ∧
    clock w' = (clock w + 100 * N.of_nat k)%N ∧
    procs w' = procs w ∧ pipes w' = pipes w.
Proof.
  induction fuel as [|fuel IH]; intros w s Hl Hnext Hfuel; [lia|].
  rewrite wait_loop_S.
  destruct (Z.ltb_spec (Z.of_N (clock w) - Z.of_N (Script.last_event_time s)) 2000)
    as [Hlt|Hge].
  - destruct (time_sleep_spec 100 w s)
      as (w1 & s1 & del1 & -> & Hd1 & Hr1 & Hc1 & Hl1 & Hall1 & Hn1 & _ & Hp1 & Hpi1).
    assert (Hl1' : (Script.last_event_time s1 ≤ clock w1)%N).
    { rewrite Hl1, Hc1. apply stamped_le; [done|lia|done]. }
    assert (Hge1 : (Script.last_event_time s ≤ Script.last_event_time s1)%N).
    { rewrite Hl1. by apply stamped_ge. }
    destruct (IH w1 s1) as (w' & s' & del & k & -> & Hd & Hr & Hq & Hge' & Hall & Hn & Hc & Hp & Hpi).
    + done.
    + unfold next_later. rewrite Hc1. exact Hn1.
    + unfold rounds_left in *. rewrite Hd1, length_app in Hfuel. rewrite Hc1.
      destruct del1 as [|p del1].
      * simpl in Hl1. rewrite Hl1. change (length []) with 0 in Hfuel.
        assert (Hdiv : ((Script.last_event_time s + 2099 - (clock w + 100)) / 100 + 1 =
                        (Script.last_event_time s + 2099 - clock w) / 100)%N).
        { replace (Script.last_event_time s + 2099 - clock w)%N
            with ((Script.last_event_time s + 2099 - (clock w + 100)) + 1 * 100)%N by lia.
          by rewrite N.div_add by lia. }
        rewrite <- Hdiv in Hfuel. clear -Hfuel.
        set (y := ((Script.last_event_time s + 2099 - (clock w + 100)) / 100)%N) in *.
        clearbody y. lia.
      * change (length (p :: del1)) with (S (length del1)) in Hfuel.
        assert (Hdiv : ((Script.last_event_time s1 + 2099 - (clock w + 100)) / 100 < 21)%N).
        { rewrite Hc1 in Hl1'. apply N.Div0.div_lt_upper_bound. lia. }
        clear -Hfuel Hdiv.
        set (x := ((Script.last_event_time s + 2099 - clock w) / 100)%N) in *.
        set (y := ((Script.last_event_time s1 + 2099 - (clock w + 100)) / 100)%N) in *.
        clearbody x y. lia.
    + exists w', s', (del1 ++ del), (S k). split; [done|].
      split; [by rewrite Hd1, Hd, app_assoc|].
      split; [by rewrite Hr, Hr1, fmap_app, app_assoc|].
      split; [done|]. split; [lia|]. split.
      { apply Forall_app. split; [|done].
        pose proof (stamped_bounds (clock w) (Script.last_event_time s) del1) as Hb.
        rewrite <- Hl1 in Hb. eapply Forall_impl; [exact Hb|]. simpl. intros; lia. }
      split; [done|]. split; [lia|]. split; congruence.
  - exists w, s, [], 0. split; [done|]. simpl. rewrite app_nil_r.
    repeat split; try done; lia.
Qed.

Lemma gaps_app prev del rest :
  gaps prev (del ++ rest) ↔ gaps prev del ∧ gaps (last_arrival prev del) rest.
Proof.
  revert prev. induction del as [|p del IH]; intros prev; simpl; [tauto|].
  rewrite IH. tauto.
Qed.

Lemma last_arrival_app prev del rest :
  last_arrival prev (del ++ rest) = last_arrival (last_arrival prev del) rest.
Proof. revert prev. induction del as [|p del IH]; intros prev; simpl; [done|apply IH]. Qed.

Lemma last_arrival_ge prev del : gaps prev del → (prev ≤ last_arrival prev del)%N.
Proof.
  revert prev. induction del as [|p del IH]; intros prev; simpl; [lia|].
  intros [Hp Hg]. specialize (IH _ Hg). lia.
Qed.

Lemma clock_after_gaps prev del : gaps prev del → clock_after prev del = last_arrival prev del.
Proof.
  revert prev. induction del as [|p del IH]; intros prev; simpl; [done|].
  intros [Hp Hg]. replace (N.max prev p.1) with p.1 by lia. by apply IH.
Qed.

Lemma stamped_gaps now last del :
  gaps last del →
  match del with p :: _ => (now ≤ p.1)%N | [] => True end →
  stamped now last del = last_arrival last del.
Proof.
  destruct del as [|p del]; [done|]. simpl. intros [Hp Hg] Hn.
  replace (N.max now p.1) with p.1 by lia. by apply clock_after_gaps.
Qed.

(** While the events come less than two seconds apart the loop goes on;
    it ends in the first pause of 2.1 seconds. *)
Lemma wait_loop_cut : ∀ fuel w s w' s' del rest,
  (Script.last_event_time s ≤ clock w)%N →
  next_later w s →
  Script.feed s = del ++ rest →
  gaps (Script.last_event_time s) del →
  late (last_arrival (Script.last_event_time s) del) rest →
  Script.wait_loop fuel (w, s) = (Return (), (w', s')) →
  Script.feed s' = rest ∧
  Script.received_events s' = Script.received_events s ++ del.*2 ∧
  Script.last_event_time s' = last_arrival (Script.last_event_time s) del ∧
  (clock w' = clock w ∨ clock w' < Script.last_event_time s' + 2100)%N.
Proof.
  induction fuel as [|fuel IH]; intros w s w' s' del rest Hl Hnext Hfeed Hgaps Hlate Hrun;
    [discriminate Hrun|].
  rewrite wait_loop_S in Hrun.
  destruct (Z.ltb_spec (Z.of_N (clock w) - Z.of_N (Script.last_event_time s)) 2000)
    as [Hlt|Hge].
  - destruct (time_sleep_spec 100 w s)
      as (w1 & s1 & del1 & Hsl & Hd1 & Hr1 & Hc1 & Hl1 & Hall1 & Hn1 & _).
    rewrite Hsl in Hrun.
    pose proof (last_arrival_ge _ _ Hgaps) as Hla.
    assert (Hpre : ∃ del2, del = del1 ++ del2 ∧ Script.feed s1 = del2 ++ rest).
    { rewrite Hfeed in Hd1. apply app_eq_inv in Hd1 as [(k & -> & Hk)|(k & Hk & ->)].
      - by exists k.
      - destruct k as [|p k].
        + exists []. rewrite app_nil_r in Hk. subst del1. by rewrite app_nil_r.
        + exfalso. subst del1. apply Forall_app in Hall1 as [_ Hall1].
          inversion_clear Hall1 as [|?? Hp _]. simpl in Hlate. lia. }
    destruct Hpre as (del2 & -> & Hfeed1).
    apply gaps_app in Hgaps as [Hg1 Hg2].
    assert (Hst : Script.last_event_time s1 = last_arrival (Script.last_event_time s) del1).
    { rewrite Hl1. apply stamped_gaps; [done|].
      unfold next_later in Hnext. rewrite Hfeed in Hnext.
      destruct del1 as [|p del1]; [done|]. simpl in Hnext. lia. }
    rewrite last_arrival_app in Hlate, Hla. rewrite <- Hst in *.
    destruct (IH w1 s1 w' s' del2 rest) as (Hf & Hr & Hlast & Hc); try done.
    + rewrite Hl1, Hc1. apply stamped_le; [done|lia|done].
    + unfold next_later. rewrite Hc1. exact Hn1.
    + split; [done|]. split; [by rewrite Hr, Hr1, fmap_app, app_assoc|].
      split; [by rewrite Hlast, last_arrival_app, <- Hst|].
      right. rewrite Hlast. pose proof (last_arrival_ge _ _ Hg1) as Hge1.
      rewrite <- Hst in Hge1. lia.
  - injection Hrun as <- <-.
    destruct del as [|p del].
    + simpl in *. split; [done|]. rewrite app_nil_r. split; [done|]. split; [done|]. by left.
    + exfalso. unfold next_later in Hnext. rewrite Hfeed in Hnext. simpl in *. lia.
Qed.

(** X14: the wait for silence ends, and ends in silence.  When the server
    sends finitely many events, the loop returns after a whole number of
    sleeps of 100 ms; by then the callback has appended the events that
    have arrived to [received_events], in the order of their arrival, the
    last of them arrived at least two seconds before, and the next event, if
    there is one, has not arrived.  The loop does not touch the child. *)
Theorem wait_for_quiet_ends w s :
  (Script.last_event_time s ≤ clock w)%N →
  next_later w s →
  ∃ w' s' del k,
    Script.wait_for_quiet (w, s) = (Return (), (w', s')) ∧
    Script.feed s = del ++ Script.feed s' ∧
    Script.received_events s' = Script.received_events s ++ del.*2 ∧
    Forall (λ p, (p.1 + 2000 ≤ clock w')%N) del ∧
    (Script.last_event_time s' + 2000 ≤ clock w')%N ∧
    next_later w' s' ∧
    clock w' = (clock w + 100 * N.of_nat k)%N ∧
    procs w' = procs w ∧ pipes w' = pipes w.
Proof.
  intros Hl Hnext. unfold Script.wait_for_quiet. cbn [snd].
  destruct (wait_loop_ends (21 * S (length (Script.feed s))) w s Hl Hnext)
    as (w' & s' & del & k & Hrun & Hd & Hr & Hq & _ & Hall & Hn & Hc & Hp & Hpi).
  { unfold rounds_left.
    assert (Hdiv : ((Script.last_event_time s + 2099 - clock w) / 100 < 21)%N)
      by (apply N.Div0.div_lt_upper_bound; lia).
    set (x := ((Script.last_event_time s + 2099 - clock w) / 100)%N) in *.
    clearbody x. lia. }
  exists w', s', del, k. split; [exact Hrun|]. split; [exact Hd|]. split; [exact Hr|].
  split; [|done]. eapply Forall_impl; [exact Hall|]. simpl. intros; lia.
Qed.

Lemma wait_for_quiet_ends_witness :
  ∃ w' s' del k,
    Script.wait_for_quiet listening = (Return (), (w', s')) ∧
    Script.feed listening.2 = del ++ Script.feed s' ∧
    Script.received_events s' = Script.received_events listening.2 ++ del.*2 ∧
    Forall (λ p, (p.1 + 2000 ≤ clock w')%N) del ∧
    (Script.last_event_time s' + 2000 ≤ clock w')%N ∧
    next_later w' s' ∧
    clock w' = (clock listening.1 + 100 * N.of_nat k)%N ∧
    procs w' = procs listening.1 ∧ pipes w' = pipes listening.1.
Proof.
  apply (wait_for_quiet_ends listening.1 listening.2).
  - simpl. lia.
  - unfold next_later. simpl. lia.
Defined.

(** X15: the wait collects the events of a burst and stops in the first long
    pause.  When the events [del] arrive less than two seconds apart and
    what follows them comes 2.1 seconds or more after the last, the loop
    returns with exactly the events [del] appended, in order; it returns at
    least 2 and less than 2.1 seconds after the last of them (or at once,
    when there is none and the silence has lasted already), and the events
    after the pause are not waited for. *)
Theorem wait_for_quiet_stops_at_pause w s del rest :
  (Script.last_event_time s ≤ clock w)%N →
  next_later w s →
  Script.feed s = del ++ rest →
  gaps (Script.last_event_time s) del →
  late (last_arrival (Script.last_event_time s) del) rest →
  ∃ w' s',
    Script.wait_for_quiet (w, s) = (Return (), (w', s')) ∧
    Script.received_events s' = Script.received_events s ++ del.*2 ∧
    Script.feed s' = rest ∧
    Script.last_event_time s' = last_arrival (Script.last_event_time s) del ∧
    (Script.last_event_time s' + 2000 ≤ clock w')%N ∧
    (clock w' = clock w ∨ clock w' < Script.last_event_time s' + 2100)%N.
Proof.
  intros Hl Hnext Hfeed Hgaps Hlate. unfold Script.wait_for_quiet. cbn [snd].
  destruct (wait_loop_ends (21 * S (length (Script.feed s))) w s Hl Hnext)
    as (w' & s' & del0 & k & Hrun & _ & _ & Hq & _).
  { unfold rounds_left.
    assert (Hdiv : ((Script.last_event_time s + 2099 - clock w) / 100 < 21)%N)
      by (apply N.Div0.div_lt_upper_bound; lia).
    set (x := ((Script.last_event_time s + 2099 - clock w) / 100)%N) in *.
    clearbody x. lia. }
  destruct (wait_loop_cut _ w s w' s' del rest Hl Hnext Hfeed Hgaps Hlate Hrun)
    as (Hf & Hr & Hlast & Hc).
  by exists w', s'.
Qed.

Lemma wait_for_quiet_stops_at_pause_witness :
  ∃ w' s',
    Script.wait_for_quiet listening = (Return (), (w', s')) ∧
    Script.received_events s' =
      Script.received_events listening.2 ++ (take 3 busy_feed).*2 ∧
    Script.feed s' = drop 3 busy_feed ∧
    Script.last_event_time s' =
      last_arrival (Script.last_event_time listening.2) (take 3 busy_feed) ∧
    (Script.last_event_time s' + 2000 ≤ clock w')%N ∧
    (clock w' = clock listening.1 ∨ clock w' < Script.last_event_time s' + 2100)%N.
Proof.
  apply (wait_for_quiet_stops_at_pause listening.1 listening.2
           (take 3 busy_feed) (drop 3 busy_feed)).
  - simpl. lia.
  - unfold next_later. simpl. lia.
  - reflexivity.
  - simpl. lia.
  - simpl. lia.
Defined.

(** In that run the wait lasts 5.7 seconds and misses the fourth event. *)
Example wait_for_quiet_sample :
  let '(r, (w', s')) := Script.wait_for_quiet listening in
  r = Return () ∧ clock w' = 5700%N ∧
  Script.type_name <$> Script.received_events s' =
    ["MessageEvent"; "ActionEvent"; "ObservationEvent"] ∧
  Script.last_event_time s' = 3700%N ∧ length (Script.feed s') = 1.
Proof. vm_compute. done. Qed.
